(** * python_ghost_cursor: the Playwright (async) cursor controller

    A shallow embedding of [python_ghost_cursor/playwright_async/_spoof.py]:
    the [GhostCursor] class ([detect_mobile], [get_cdp_session],
    [get_random_page_point], [random_move], [trace_path],
    [toggle_random_move], [click], [move], [move_to]) and [create_cursor].

    The coroutines are modelled in a state-and-exception monad over a run
    state that holds the controller object, a clock and the log of every
    call made to the outside (Playwright page, asyncio, logger).  The
    answers of the outside are read from an environment indexed by the
    clock, so every theorem holds for every behaviour of the browser.  At
    each [await] the environment may also let another task write the two
    fields that the class's other coroutines write, [moving] and
    [previous].

    Numbers (Python ints and floats) are modelled as rationals.  The one
    operation on them that can raise, the division in [click], takes its
    outcome from the environment; nothing below depends on rounding. *)

From Stdlib Require Import QArith.
From stdpp Require Import base option list gmap strings.

Close Scope Q_scope.
Local Open Scope string_scope.
Local Open Scope list_scope.

(** ** Data *)

(** Modelled from the spec: the class [Vector] of
    [python_ghost_cursor.shared._math], which is not part of the sources
    at hand; the specification's Point, "[x], [y]: real numbers", built
    as [Vector(x, y)]. *)
Module Vector.
Record t : Type := mk { x : Q; y : Q }.
End Vector.

(** Modelled from the spec: [origin] of [python_ghost_cursor.shared._math],
    which is not part of the sources at hand; the specification calls it
    "the origin point (0,0)". *)
Definition origin : Vector.t := Vector.mk 0 0.

(** The dict returned by [ElementHandle.bounding_box()] and the dict
    literals built from it in [move] and [get_random_page_point]. *)
Module Box.
Record t : Type := mk { x : Q; y : Q; width : Q; height : Q }.
End Box.

Inductive Page : Type := PageId (n : nat).
Inductive ElementHandle : Type := Handle (n : nat).
Inductive CDPSession : Type := Session (n : nat).

(** [Union[str, ElementHandle]] *)
Inductive Selector : Type :=
| SelStr (s : string)
| SelElem (h : ElementHandle).

(** Second argument of [path]: a [Vector] or a box dict. *)
Inductive Target : Type :=
| ToPoint (v : Vector.t)
| ToBox (b : Box.t).

(** Python exceptions, split the way the two [except] clauses of the file
    split them: [except Exception] catches the first kind only, a bare
    [except:] catches both.  [BaseException msg] stands for an exception
    that is not an [Exception]: [asyncio.CancelledError],
    [KeyboardInterrupt], ... *)
Inductive PyExn : Type :=
| Exception (msg : string)
| BaseException (msg : string).

Inductive outcome (A : Type) : Type :=
| Ok (a : A)
| Raises (e : PyExn).
Arguments Ok {A} a.
Arguments Raises {A} e.

Definition succeeded {A} (o : outcome A) : bool :=
  match o with Ok _ => true | Raises _ => false end.

(** ** Calls to the outside *)

Inductive Call : Type :=
| page_mouse_move (v : Vector.t)
| page_mouse_down
| page_mouse_up
| page_touchscreen_tap (v : Vector.t)
| page_browser_is_connected
| page_evaluate
| page_wait_for_selector (sel : string) (timeout : Q)
| page_query_selector (sel : string)
| elem_scroll_into_view_if_needed (elem : ElementHandle)
| elem_bounding_box (elem : ElementHandle)
| page_target_targetId
| page_context_new_cdp_session
| cdp_send_getWindowForTarget (target_id : string)
| asyncio_sleep (seconds : Q)
| asyncio_ensure_future_random_move.

(** What a call gives back when it does not raise. *)
Definition resp (c : Call) : Type :=
  match c with
  | page_mouse_move _ => unit
  | page_mouse_down => unit
  | page_mouse_up => unit
  | page_touchscreen_tap _ => unit
  | page_browser_is_connected => bool
  | page_evaluate => bool
  | page_wait_for_selector _ _ => unit
  | page_query_selector _ => option ElementHandle
  | elem_scroll_into_view_if_needed _ => unit
  | elem_bounding_box _ => option Box.t
  | page_target_targetId => string
  | page_context_new_cdp_session => CDPSession
  | cdp_send_getWindowForTarget _ => (Q * Q)%type
  | asyncio_sleep _ => unit
  | asyncio_ensure_future_random_move => unit
  end.

Inductive Event : Type :=
| Called (c : Call) (ok : bool)
| Logged (msg : string).

(** ** The controller object and the run state *)

Record GhostCursor : Type := mkGhostCursor {
  page : Page;
  previous : Vector.t;
  moving : bool;
  overshoot_spread : Q;
  overshoot_radius : Q;
  is_mobile : option bool;
  cdp_session : option CDPSession   (* [hasattr(self, "cdp_session")] *)
}.

(** What another task of the same controller may write while this one is
    suspended at an [await]. *)
Record Interference : Type := mkInterference {
  write_moving : option bool;
  write_previous : option Vector.t
}.

Definition nobody : Interference := mkInterference None None.

(** The outside world.  [respond t c] is the answer to call [c] made at
    clock [t].  The helpers imported from [python_ghost_cursor.shared] are
    not part of the sources at hand and draw on [random]; they are taken
    as parameters that also depend on the clock.  [true_divide a b] is
    Python's [a / b]: the embedding has rationals for Python's ints and
    floats alike, so whether a quotient can be computed -- an int beyond
    the range of a float raises [OverflowError] -- is left to the
    environment. *)
Record Env : Type := mkEnv {
  respond : nat -> forall c : Call, outcome (resp c);
  other_tasks : nat -> Interference;
  true_divide : Q -> Q -> outcome Q;
  random_random : nat -> Q;
  path : nat -> Vector.t -> Target -> option Q -> list Vector.t;
  should_overshoot : nat -> Vector.t -> Vector.t -> bool;
  overshoot : nat -> Vector.t -> Q -> Vector.t;
  get_random_box_point : nat -> Box.t -> option Q -> Vector.t
}.

Record State : Type := mkState {
  self : GhostCursor;
  tick : nat;
  events : list Event
}.

Inductive result (A : Type) : Type :=
| Val (a : A) (s : State)
| Err (e : PyExn) (s : State).
Arguments Val {A} a s.
Arguments Err {A} e s.

Definition final {A} (r : result A) : State :=
  match r with Val _ s => s | Err _ s => s end.

(** ** The monad *)

Definition M (A : Type) : Type := State -> result A.

Definition ret {A} (a : A) : M A := fun s => Val a s.

Definition bind {A B} (m : M A) (k : A -> M B) : M B :=
  fun s => match m s with
           | Val a s' => k a s'
           | Err e s' => Err e s'
           end.

Definition raise {A} (e : PyExn) : M A := fun s => Err e s.

Declare Scope py_scope.
Delimit Scope py_scope with py.
Notation "x <- m ;; k" := (bind m (fun x => k))
  (at level 100, m at next level, right associativity) : py_scope.
Notation "m ;; k" := (bind m (fun _ => k))
  (at level 100, right associativity) : py_scope.
Local Open Scope py_scope.

(** [try: body except Exception as exc: handler exc] *)
Definition try_except_Exception {A} (body : M A) (handler : string -> M A) : M A :=
  fun s => match body s with
           | Err (Exception msg) s' => handler msg s'
           | r => r
           end.

(** [try: body except: handler] *)
Definition try_except {A} (body : M A) (handler : M A) : M A :=
  fun s => match body s with
           | Err _ s' => handler s'
           | r => r
           end.

Definition with_self (f : GhostCursor -> GhostCursor) (s : State) : State :=
  mkState (f (self s)) (tick s) (events s).

Definition get_self : M GhostCursor := fun s => Val (self s) s.

Definition with_previous (v : Vector.t) (c : GhostCursor) : GhostCursor :=
  mkGhostCursor (page c) v (moving c) (overshoot_spread c)
                (overshoot_radius c) (is_mobile c) (cdp_session c).

Definition with_moving (b : bool) (c : GhostCursor) : GhostCursor :=
  mkGhostCursor (page c) (previous c) b (overshoot_spread c)
                (overshoot_radius c) (is_mobile c) (cdp_session c).

Definition with_is_mobile (b : bool) (c : GhostCursor) : GhostCursor :=
  mkGhostCursor (page c) (previous c) (moving c) (overshoot_spread c)
                (overshoot_radius c) (Some b) (cdp_session c).

Definition with_cdp_session (d : CDPSession) (c : GhostCursor) : GhostCursor :=
  mkGhostCursor (page c) (previous c) (moving c) (overshoot_spread c)
                (overshoot_radius c) (is_mobile c) (Some d).

Definition set_previous (v : Vector.t) : M unit :=
  fun s => Val tt (with_self (with_previous v) s).

Definition set_moving (b : bool) : M unit :=
  fun s => Val tt (with_self (with_moving b) s).

Definition set_is_mobile (b : bool) : M unit :=
  fun s => Val tt (with_self (with_is_mobile b) s).

Definition set_cdp_session (d : CDPSession) : M unit :=
  fun s => Val tt (with_self (with_cdp_session d) s).

Definition interfere (i : Interference) (c : GhostCursor) : GhostCursor :=
  mkGhostCursor (page c)
    (match write_previous i with Some v => v | None => previous c end)
    (match write_moving i with Some b => b | None => moving c end)
    (overshoot_spread c) (overshoot_radius c) (is_mobile c) (cdp_session c).

Definition logger_debug (msg : string) : M unit :=
  fun s => Val tt (mkState (self s) (tick s) (events s ++ [Logged msg])).

Definition stop_warning : string := "Warning: stopping random mouse movements".

Section Controller.

Variable env : Env.

(** A call made without suspending: it is logged, the clock advances,
    and its answer is returned or raised. *)
Definition call (c : Call) : M (resp c) :=
  fun s =>
    let o := respond env (tick s) c in
    let s' := mkState (self s) (S (tick s))
                      (events s ++ [Called c (succeeded o)]) in
    match o with
    | Ok a => Val a s'
    | Raises e => Err e s'
    end.

(** [await c]: as [call], and while the coroutine is suspended the other
    tasks scheduled at that clock run. *)
Definition await (c : Call) : M (resp c) :=
  fun s =>
    let o := respond env (tick s) c in
    let s' := mkState (interfere (other_tasks env (tick s)) (self s))
                      (S (tick s))
                      (events s ++ [Called c (succeeded o)]) in
    match o with
    | Ok a => Val a s'
    | Raises e => Err e s'
    end.

(** [a / b]: no call, no suspension; the quotient or the exception. *)
Definition divide (a b : Q) : M Q :=
  fun s =>
    match true_divide env a b with
    | Ok q => Val q s
    | Raises e => Err e s
    end.

(** A value drawn from one of the randomised helpers. *)
Definition draw {A} (f : nat -> A) : M A :=
  fun s => Val (f (tick s)) (mkState (self s) (S (tick s)) (events s)).

(** *** [detect_mobile] *)
Definition detect_mobile : M bool :=
  c <- get_self ;;
  match is_mobile c with
  | None =>
      b <- await page_evaluate ;;
      set_is_mobile b ;;
      ret b
  | Some b => ret b
  end.

(** *** [trace_path]

    [Next] and [Return] tell the [for] loop whether the body fell
    through to the next vector or executed [return]. *)
Inductive Flow : Type := Next | Return.

Definition trace_step (v : Vector.t) (abort_on_move : bool) : M Flow :=
  try_except_Exception
    (c <- get_self ;;
     if abort_on_move && moving c then ret Return
     else
       await (page_mouse_move v) ;;
       set_previous v ;;
       ret Next)
    (fun exc =>
       connected <- await page_browser_is_connected ;;
       if negb connected then ret Return
       else
         logger_debug ("Warning: could not move mouse, error message: " +:+ exc) ;;
         ret Next).

Fixpoint trace_loop (vectors : list Vector.t) (abort_on_move : bool) : M Flow :=
  match vectors with
  | [] => ret Next
  | v :: rest =>
      f <- trace_step v abort_on_move ;;
      match f with
      | Return => ret Return
      | Next => trace_loop rest abort_on_move
      end
  end.

Definition trace_path (vectors : list Vector.t) (abort_on_move : bool) : M unit :=
  trace_loop vectors abort_on_move ;; ret tt.

(** *** [get_cdp_session], [get_random_page_point] *)
Definition get_cdp_session : M CDPSession :=
  c <- get_self ;;
  match cdp_session c with
  | None =>
      d <- await page_context_new_cdp_session ;;
      set_cdp_session d ;;
      ret d
  | Some d => ret d
  end.

(** The source does not await [send]; whether subscripting what it
    returns gives the window bounds or raises is left to the
    environment. *)
Definition get_random_page_point : M Vector.t :=
  target_id <- call page_target_targetId ;;
  get_cdp_session ;;
  window <- call (cdp_send_getWindowForTarget target_id) ;;
  draw (fun t =>
    get_random_box_point env t
      (Box.mk (Vector.x origin) (Vector.y origin) (fst window) (snd window))
      None).

(** *** [random_move]: one run of the coroutine.  The next run is not
    called but scheduled ([asyncio.ensure_future]), which the log shows
    as a call. *)
Definition random_move_body : M unit :=
  c <- get_self ;;
  (if negb (moving c) then
     rand <- get_random_page_point ;;
     c' <- get_self ;;
     p <- draw (fun t => path env t (previous c') (ToPoint rand) None) ;;
     trace_path p true ;;
     set_previous rand
   else ret tt) ;;
  r <- draw (random_random env) ;;
  await (asyncio_sleep (r * 2)%Q) ;;
  call asyncio_ensure_future_random_move.

Definition random_move : M unit :=
  try_except random_move_body (logger_debug stop_warning).

(** *** [toggle_random_move] *)
Definition toggle_random_move (random_ : bool) : M unit :=
  set_moving (negb random_).

(** *** [move] *)
Definition quote : string := String (Ascii.ascii_of_nat 34) EmptyString.

Definition not_found_message (selector : string) : string :=
  "Could not find element with selector " +:+ quote +:+ "$" +:+ selector
  +:+ quote +:+ ", make sure you're waiting for the elements with "
  +:+ quote +:+ "puppeteer.wait_for_selector" +:+ quote.

Definition no_dimensions_message : string :=
  "Could not find the dimensions of the element you're clicking on, this might be a bug?".

(** Truth value of an [Optional[float]]: [None] and zero are false. *)
Definition truthy (o : option Q) : bool :=
  match o with
  | Some q => negb (Qeq_bool q 0)
  | None => false
  end.

(** Lines 139-156: from the selector to the answer of
    [elem.bounding_box()]. *)
Definition resolve_box (selector : Selector) (wait_for_selector : option Q)
  : M (option Box.t) :=
  toggle_random_move false ;;
  elem <-
    match selector with
    | SelStr sel =>
        match wait_for_selector with
        | Some timeout =>
            if truthy wait_for_selector
            then await (page_wait_for_selector sel timeout)
            else ret tt
        | None => ret tt
        end ;;
        found <- await (page_query_selector sel) ;;
        match found with
        | None => raise (Exception (not_found_message sel))
        | Some elem => ret elem
        end
    | SelElem elem => ret elem
    end ;;
  await (elem_scroll_into_view_if_needed elem) ;;
  await (elem_bounding_box elem).

(** Lines 161-181: the motion, once the box is known. *)
Definition move_to_box (box : Box.t) (padding_percentage : option Q) : M unit :=
  destination <- draw (fun t => get_random_box_point env t box padding_percentage) ;;
  c <- get_self ;;
  overshooting <- draw (fun t => should_overshoot env t (previous c) destination) ;;
  to <- (if overshooting
         then draw (fun t => overshoot env t destination (overshoot_radius c))
         else ret destination) ;;
  p <- draw (fun t => path env t (previous c) (ToPoint to) None) ;;
  trace_path p false ;;
  (if overshooting then
     let bounding_box :=
       Box.mk (Vector.x destination) (Vector.y destination)
              (Box.width box) (Box.height box) in
     c' <- get_self ;;
     correction <- draw (fun t =>
       path env t to (ToBox bounding_box) (Some (overshoot_spread c'))) ;;
     trace_path correction false
   else ret tt) ;;
  set_previous destination ;;
  toggle_random_move true.

Definition move (selector : Selector)
  (padding_percentage wait_for_selector : option Q) : M unit :=
  box <- resolve_box selector wait_for_selector ;;
  match box with
  | None => raise (Exception no_dimensions_message)
  | Some box => move_to_box box padding_percentage
  end.

(** *** [click] *)

(** Lines 109-115: the move phase; its value is [target_coords]. *)
Definition click_move_phase (selector : option Selector)
  (padding_percentage wait_for_selector : option Q) : M Vector.t :=
  toggle_random_move false ;;
  c0 <- get_self ;;
  match selector with
  | Some sel =>
      move sel padding_percentage wait_for_selector ;;
      toggle_random_move false ;;
      c1 <- get_self ;;
      ret (previous c1)
  | None => ret (previous c0)
  end.

(** Lines 117-128: the [try] statement. *)
Definition click_dispatch (target_coords : Vector.t) (wait_for_click : option Q)
  : M unit :=
  try_except_Exception
    (mobile <- detect_mobile ;;
     if negb mobile then
       await page_mouse_down ;;
       match wait_for_click with
       | Some w =>
           seconds <- divide w 1000 ;;
           await (asyncio_sleep seconds)
       | None => ret tt
       end ;;
       await page_mouse_up
     else
       await (page_touchscreen_tap target_coords))
    (fun exc =>
       logger_debug ("Warning: could not click mouse/touch, error message: " +:+ exc)).

Definition click (selector : option Selector)
  (padding_percentage wait_for_selector wait_for_click : option Q) : M unit :=
  target_coords <- click_move_phase selector padding_percentage wait_for_selector ;;
  click_dispatch target_coords wait_for_click ;;
  r <- draw (random_random env) ;;
  await (asyncio_sleep (r * 2)%Q) ;;
  toggle_random_move true.

(** *** [move_to] *)
Definition subscript (d : gmap string Q) (key : string) : M Q :=
  match d !! key with
  | Some q => ret q
  | None => raise (Exception ("KeyError: " +:+ key))
  end.

Definition move_to (destination : gmap string Q) : M unit :=
  dx <- subscript destination "x" ;;
  dy <- subscript destination "y" ;;
  let destination_vector := Vector.mk dx dy in
  toggle_random_move false ;;
  c <- get_self ;;
  p <- draw (fun t => path env t (previous c) (ToPoint destination_vector) None) ;;
  trace_path p false ;;
  toggle_random_move true.

End Controller.

(** ** [create_cursor] *)

(** [GhostCursor.__init__] *)
Definition GhostCursor_init (page : Page) (start : Vector.t) : GhostCursor :=
  mkGhostCursor page start false 10 120 None None.

(** [Union[Vector, Dict]] *)
Inductive Start : Type :=
| StartVector (v : Vector.t)
| StartDict (d : gmap string Q).

(** Modelled from the spec: [Vector] (see above) called with the dict
    unpacked as keyword arguments; the keys must be exactly [x] and
    [y]. *)
Definition Vector_of_kwargs (d : gmap string Q) : outcome Vector.t :=
  match d !! "x", d !! "y" with
  | Some a, Some b =>
      if decide (size d = 2) then Ok (Vector.mk a b)
      else Raises (Exception "TypeError: unexpected keyword argument")
  | _, _ => Raises (Exception "TypeError: missing required argument")
  end.

(** [start = None] stands for the omitted argument. *)
Definition create_cursor (page : Page) (start : option Start) : outcome GhostCursor :=
  match start with
  | None => Ok (GhostCursor_init page origin)
  | Some (StartVector v) => Ok (GhostCursor_init page v)
  | Some (StartDict d) =>
      match Vector_of_kwargs d with
      | Ok v => Ok (GhostCursor_init page v)
      | Raises e => Raises e
      end
  end.

(** ** Observations on runs *)

(** The events logged between two states of one run. *)
Definition since (s s' : State) : list Event :=
  drop (length (events s)) (events s').

(** Points handed to [page.mouse.move], in order. *)
Fixpoint dispatched (evs : list Event) : list Vector.t :=
  match evs with
  | [] => []
  | Called (page_mouse_move v) _ :: rest => v :: dispatched rest
  | _ :: rest => dispatched rest
  end.

(** Points for which [page.mouse.move] returned. *)
Fixpoint delivered (evs : list Event) : list Vector.t :=
  match evs with
  | [] => []
  | Called (page_mouse_move v) true :: rest => v :: delivered rest
  | _ :: rest => delivered rest
  end.

Definition is_pointer_call (c : Call) : bool :=
  match c with
  | page_mouse_move _ | page_mouse_down | page_mouse_up
  | page_touchscreen_tap _ => true
  | _ => false
  end.

Definition is_pointer_event (e : Event) : bool :=
  match e with
  | Called c _ => is_pointer_call c
  | Logged _ => false
  end.

Definition no_motion (e : Event) : Prop := is_pointer_event e = false.

Fixpoint pointer_events (evs : list Event) : list Event :=
  match evs with
  | [] => []
  | e :: rest =>
      if is_pointer_event e then e :: pointer_events rest
      else pointer_events rest
  end.

Definition moves (p : list Vector.t) : list Event :=
  map (fun v => Called (page_mouse_move v) true) p.

(** The events one iteration of [trace_path] can log. *)
Definition trace_event (e : Event) : Prop :=
  match e with
  | Called (page_mouse_move _) _ => True
  | Called page_browser_is_connected _ => True
  | Logged _ => True
  | _ => False
  end.

(** The run state after [await c] at state [s]. *)
Definition awaited (env : Env) (c : Call) (ok : bool) (s : State) : State :=
  mkState (interfere (other_tasks env (tick s)) (self s))
          (S (tick s))
          (events s ++ [Called c ok]).

(** One iteration of [trace_path] on [v]: the dispatch returned. *)
Definition after_dispatch (env : Env) (v : Vector.t) (s : State) : State :=
  with_self (with_previous v) (awaited env (page_mouse_move v) true s).

(** The dispatch raised [Exception(msg)] and the browser answered the
    connectivity check. *)
Definition after_check (env : Env) (v : Vector.t) (s : State) : State :=
  awaited env page_browser_is_connected true
    (awaited env (page_mouse_move v) false s).

(** ... and the check said connected: the warning is logged. *)
Definition after_warning (env : Env) (v : Vector.t) (msg : string) (s : State)
  : State :=
  let s' := after_check env v s in
  mkState (self s') (tick s')
    (events s' ++
       [Logged ("Warning: could not move mouse, error message: " +:+ msg)]).

(** [logs P m]: whatever [m] does, it only appends events and each of
    them satisfies [P]. *)
Definition logs {A} (P : Event -> Prop) (m : M A) : Prop :=
  forall s, exists new,
    events (final (m s)) = events s ++ new /\ Forall P new.

(** Hoare triples on the controller object: from a state whose
    controller satisfies [Pre], [m] either returns [a] with a controller
    satisfying [Post a] or raises [e] with one satisfying [Exc e]. *)
Definition triple {A} (Pre : GhostCursor -> Prop) (m : M A)
  (Post : A -> GhostCursor -> Prop) (Exc : PyExn -> GhostCursor -> Prop) : Prop :=
  forall s, Pre (self s) ->
    match m s with
    | Val a s' => Post a (self s')
    | Err e s' => Exc e (self s')
    end.

(** [I] survives [m], whether [m] returns or raises. *)
Definition preserves {A} (I : GhostCursor -> Prop) (m : M A) : Prop :=
  triple I m (fun _ => I) (fun _ => I).

Definition anything {A} : A -> GhostCursor -> Prop := fun _ _ => True.

(** No other task writes the controller. *)
Definition quiet (env : Env) : Prop :=
  forall t, other_tasks env t = nobody.

(** [page.mouse.move] never fails. *)
Definition moves_succeed (env : Env) : Prop :=
  forall t v, respond env t (page_mouse_move v) = Ok tt.

(** The explicit operations. *)
Inductive Operation : Type :=
| OpMove (selector : Selector) (padding_percentage wait_for_selector : option Q)
| OpClick (selector : option Selector)
    (padding_percentage wait_for_selector wait_for_click : option Q)
| OpMoveTo (destination : gmap string Q).

Definition run_operation (env : Env) (op : Operation) : M unit :=
  match op with
  | OpMove sel pad wfs => move env sel pad wfs
  | OpClick sel pad wfs wfc => click env sel pad wfs wfc
  | OpMoveTo d => move_to env d
  end.

(** ** Sample environments *)

Definition all_ok (c : Call) : outcome (resp c) :=
  match c with
  | page_mouse_move _ => Ok tt
  | page_mouse_down => Ok tt
  | page_mouse_up => Ok tt
  | page_touchscreen_tap _ => Ok tt
  | page_browser_is_connected => Ok true
  | page_evaluate => Ok false
  | page_wait_for_selector _ _ => Ok tt
  | page_query_selector _ => Ok (Some (Handle 0))
  | elem_scroll_into_view_if_needed _ => Ok tt
  | elem_bounding_box _ => Ok (Some (Box.mk 100 100 40 20))
  | page_target_targetId => Ok "target"
  | page_context_new_cdp_session => Ok (Session 0)
  | cdp_send_getWindowForTarget _ => Ok (800, 600)%Q
  | asyncio_sleep _ => Ok tt
  | asyncio_ensure_future_random_move => Ok tt
  end.

(** A straight two-point path; the random point of a box is its corner;
    the overshoot point lies 7 to the right. *)
Definition straight (v : Vector.t) (target : Target) : list Vector.t :=
  match target with
  | ToPoint w => [v; w]
  | ToBox b => [v; Vector.mk (Box.x b) (Box.y b)]
  end.

Definition corner (b : Box.t) : Vector.t := Vector.mk (Box.x b) (Box.y b).

Definition beside (v : Vector.t) : Vector.t :=
  Vector.mk (Vector.x v + 7)%Q (Vector.y v).

Definition sample_env (answers : nat -> forall c : Call, outcome (resp c))
  (others : nat -> Interference) (far : bool) : Env :=
  mkEnv answers others (fun a b => Ok (a / b)%Q) (fun _ => (1 # 2)%Q)
        (fun _ v target _ => straight v target)
        (fun _ _ _ => far)
        (fun _ v _ => beside v)
        (fun _ b _ => corner b).

(** A desktop browser on which every call succeeds. *)
Definition desktop : Env := sample_env (fun _ => all_ok) (fun _ => nobody) false.

(** As [desktop], but every [page.mouse.move] raises a transport error
    while the browser stays connected. *)
Definition flaky_answers (c : Call) : outcome (resp c) :=
  match c with
  | page_mouse_move _ => Raises (Exception "Target closed")
  | c' => all_ok c'
  end.

Definition flaky : Env := sample_env (fun _ => flaky_answers) (fun _ => nobody) false.

Definition start_state (c : GhostCursor) : State := mkState c 0 [].

Definition fresh : State := start_state (GhostCursor_init (PageId 0) origin).

(** Only the call made at clock 0 fails. *)
Definition flaky_once : Env :=
  sample_env (fun t c => if Nat.eqb t 0 then flaky_answers c else all_ok c)
             (fun _ => nobody) false.

(** Another task starts an explicit operation while the call made at
    clock 1 is awaited. *)
Definition interrupted : Env :=
  sample_env (fun _ => all_ok)
             (fun t => if Nat.eqb t 1 then mkInterference (Some true) None
                       else nobody)
             false.

Definition pt (n : Z) : Vector.t := Vector.mk (inject_Z n) (inject_Z n).

(** ** The claims that the code does not meet, as they are worded *)

(** "the remaining step sequence stops early": nothing is dispatched
    after a dispatch that failed. *)
Definition stops_after_failed_dispatch (s s' : State) : Prop :=
  forall pre v post,
    since s s' = pre ++ Called (page_mouse_move v) false :: post ->
    dispatched post = [].


(** "the flag is cleared on every exit path" *)
Definition flag_cleared_on_exit {A} (r : result A) : Prop :=
  moving (self (final r)) = false.

(** The controller is executing an explicit operation. *)
Definition busy (c : GhostCursor) : Prop := moving c = true.

(** As [desktop], but no selector matches an element. *)
Definition no_match_answers (c : Call) : outcome (resp c) :=
  match c with
  | page_query_selector _ => Ok None
  | c' => all_ok c'
  end.

Definition no_such_element : Env :=
  sample_env (fun _ => no_match_answers) (fun _ => nobody) false.


(** "previous is updated only by the successful completion of a traced
    step": between [s] and [s'], [previous] is unchanged or is a point
    for which [page.mouse.move] returned. *)
Definition previous_was_dispatched (s s' : State) : Prop :=
  previous (self s') = previous (self s)
  \/ In (previous (self s')) (delivered (since s s')).


(** ** The composition rule of the specification

    "When [should_overshoot] is true, the full motion is
    [generate_path(start, overshoot_point)] followed by
    [correction_path(...)]; otherwise it is simply
    [generate_path(start, end)]."  [s] is the state in which the target's
    box has just been resolved; the clock arguments say when each
    randomised helper is consulted. *)
Definition composed_motion (env : Env) (s : State) (box : Box.t)
  (padding_percentage : option Q) : list Vector.t :=
  let t := tick s in
  let start := previous (self s) in
  let destination := get_random_box_point env t box padding_percentage in
  if should_overshoot env (t + 1) start destination then
    let overshoot_point :=
      overshoot env (t + 2) destination (overshoot_radius (self s)) in
    let region :=
      Box.mk (Vector.x destination) (Vector.y destination)
             (Box.width box) (Box.height box) in
    let first := path env (t + 3) start (ToPoint overshoot_point) None in
    first ++ path env (t + 4 + length first) overshoot_point (ToBox region)
                  (Some (overshoot_spread (self s)))
  else
    path env (t + 2) start (ToPoint destination) None.

(** The run state after a trace of [p] in which every dispatch
    returned. *)
Fixpoint traced (env : Env) (p : list Vector.t) (s : State) : State :=
  match p with
  | [] => s
  | v :: rest => traced env rest (after_dispatch env v s)
  end.



(** The state of a run on [fresh] in which [move] has just resolved the
    selector "#a" to its box. *)
Definition resolved : State :=
  mkState (with_moving true (self fresh)) 3
    [Called (page_query_selector "#a") true;
     Called (elem_scroll_into_view_if_needed (Handle 0)) true;
     Called (elem_bounding_box (Handle 0)) true].

Definition not_rescheduled (e : Event) : Prop :=
  e <> Called asyncio_ensure_future_random_move true.


(** The hold of [click], in seconds: none when [wait_for_click] is
    omitted, else [wait_for_click / 1000] if that can be computed. *)
Definition hold_seconds (env : Env) (wait_for_click : option Q)
  : outcome (option Q) :=
  match wait_for_click with
  | None => Ok None
  | Some w =>
      match true_divide env w 1000 with
      | Ok seconds => Ok (Some seconds)
      | Raises e => Raises e
      end
  end.

(** The calls [click] makes once the surface is known to be
    touch-capable ([mobile]) or not, given the hold. *)
Definition click_calls (mobile : bool) (target_coords : Vector.t)
  (hold : option Q) : list Call :=
  if mobile then [page_touchscreen_tap target_coords]
  else
    [page_mouse_down]
    ++ match hold with
       | Some seconds => [asyncio_sleep seconds]
       | None => []
       end
    ++ [page_mouse_up].

Definition click_events (mobile : bool) (target_coords : Vector.t)
  (hold : option Q) : list Event :=
  map (fun c => Called c true) (click_calls mobile target_coords hold).

(** The pause that ends [click], when the detection ended in [s]. *)
Definition click_pause (env : Env) (s : State) (mobile : bool)
  (target_coords : Vector.t) (hold : option Q) : Call :=
  asyncio_sleep
    (random_random env
       (tick s + length (click_calls mobile target_coords hold)) * 2)%Q.

(** The calls that [click] makes from [s] on succeed: each of
    [click_calls] at its clock, and the pause after them. *)
Definition made_calls_succeed (env : Env) (s : State) (mobile : bool)
  (target_coords : Vector.t) (hold : option Q) : Prop :=
  (forall i c,
     click_calls mobile target_coords hold !! i = Some c ->
     succeeded (respond env (tick s + i) c) = true)
  /\ succeeded
       (respond env
          (tick s + length (click_calls mobile target_coords hold) + 1)
          (click_pause env s mobile target_coords hold)) = true.

(** "a pointer press then release with a hold duration between them" *)
Definition holds_between_press_and_release (evs : list Event) : Prop :=
  exists pre d post,
    evs = pre ++ Called page_mouse_down true
              :: Called (asyncio_sleep d) true
              :: Called page_mouse_up true :: post.

(** ** Repeated detection *)

(** [n] successive calls of [detect_mobile] by a caller that, like
    [click], absorbs what they raise. *)
Fixpoint detect_repeatedly (env : Env) (n : nat) (s : State) : State :=
  match n with
  | O => s
  | S n' => detect_repeatedly env n' (final (detect_mobile env s))
  end.

(** Queries of the touch capability issued / answered. *)
Fixpoint queries (evs : list Event) : nat :=
  match evs with
  | [] => 0
  | Called page_evaluate _ :: rest => S (queries rest)
  | _ :: rest => queries rest
  end.

Fixpoint answered_queries (evs : list Event) : nat :=
  match evs with
  | [] => 0
  | Called page_evaluate true :: rest => S (answered_queries rest)
  | _ :: rest => answered_queries rest
  end.

(** "queries the external surface at most once per controller" *)
Definition queries_at_most_once (env : Env) (n : nat) (s : State) : Prop :=
  queries (since s (detect_repeatedly env n s)) <= 1.

(** The page is navigating when first asked: [page.evaluate] raises at
    clock 0 and answers afterwards. *)
Definition navigating_answers (c : Call) : outcome (resp c) :=
  match c with
  | page_evaluate => Raises (Exception "Execution context was destroyed")
  | c' => all_ok c'
  end.

Definition navigating : Env :=
  sample_env (fun t c => if Nat.eqb t 0 then navigating_answers c else all_ok c)
             (fun _ => nobody) false.

(** A controller fresh from its constructor. *)
Definition ready (c : GhostCursor) : Prop :=
  moving c = false /\ is_mobile c = None /\ cdp_session c = None
  /\ overshoot_spread c = 10%Q /\ overshoot_radius c = 120%Q.


(** A phone: as [desktop], but the page reports touch support. *)
Definition touch_answers (c : Call) : outcome (resp c) :=
  match c with
  | page_evaluate => Ok true
  | c' => all_ok c'
  end.

Definition phone : Env :=
  sample_env (fun _ => touch_answers) (fun _ => nobody) false.


(** A click on "#a" on the phone: the states at the end of the move
    phase and after the detection. *)
Definition phone_at_target : State :=
  Eval vm_compute in
    final (click_move_phase phone (Some (SelStr "#a")) None None fresh).

Definition phone_detected : State :=
  Eval vm_compute in final (detect_mobile phone phone_at_target).


(** The same rule as the traces it asks for: [trace_path] on the first
    path, then, after an overshoot, [trace_path] on the correction drawn
    at that moment. *)
Definition trace_composed (env : Env) (s : State) (box : Box.t)
  (padding_percentage : option Q) : M unit :=
  let t := tick s in
  let start := previous (self s) in
  let destination := get_random_box_point env t box padding_percentage in
  if should_overshoot env (t + 1) start destination then
    let overshoot_point :=
      overshoot env (t + 2) destination (overshoot_radius (self s)) in
    let region :=
      Box.mk (Vector.x destination) (Vector.y destination)
             (Box.width box) (Box.height box) in
    trace_path env (path env (t + 3) start (ToPoint overshoot_point) None) false ;;
    c <- get_self ;;
    correction <- draw (fun t' =>
      path env t' overshoot_point (ToBox region) (Some (overshoot_spread c))) ;;
    trace_path env correction false
  else
    trace_path env (path env (t + 2) start (ToPoint destination) None) false.

(** The state in which those traces start: [s] with the clock moved past
    the draws of the destination, the overshoot decision, the overshoot
    point (if any) and the first path. *)
Definition drawn (env : Env) (s : State) (box : Box.t)
  (padding_percentage : option Q) : State :=
  let destination := get_random_box_point env (tick s) box padding_percentage in
  mkState (self s)
    (tick s + (if should_overshoot env (tick s + 1) (previous (self s)) destination
               then 4 else 3))
    (events s).


(** ** Further observations and sample environments *)

(** The events an iteration of [random_move] logs besides those of its
    sampling and its trace: the sleep, the scheduling, a warning. *)
Definition loop_event (e : Event) : Prop :=
  match e with
  | Called (asyncio_sleep _) _ => True
  | Called asyncio_ensure_future_random_move _ => True
  | Logged _ => True
  | _ => False
  end.

(** An event other than the opening of a CDP session. *)
Definition no_new_session (e : Event) : Prop :=
  match e with
  | Called page_context_new_cdp_session _ => False
  | _ => True
  end.

(** The connectivity check always answers. *)
Definition check_answers (env : Env) : Prop :=
  forall t, exists b, respond env t page_browser_is_connected = Ok b.

(** [page.mouse.move] raises nothing but [Exception]s. *)
Definition moves_raise_only_Exception (env : Env) : Prop :=
  forall t v msg,
    respond env t (page_mouse_move v) <> Raises (BaseException msg).

(** The controller of [fresh] while an explicit operation is in flight. *)
Definition fresh_busy : State := with_self (with_moving true) fresh.

(** The task is cancelled during the dispatch made at clock 1. *)
Definition cancelled_answers (c : Call) : outcome (resp c) :=
  match c with
  | page_mouse_move _ => Raises (BaseException "CancelledError")
  | c' => all_ok c'
  end.

Definition cancelled : Env :=
  sample_env (fun t c => if Nat.eqb t 1 then cancelled_answers c else all_ok c)
             (fun _ => nobody) false.

(** The page object has no [target] attribute. *)
Definition no_target_answers (c : Call) : outcome (resp c) :=
  match c with
  | page_target_targetId =>
      Raises (Exception "AttributeError: 'Page' object has no attribute 'target'")
  | c' => all_ok c'
  end.

Definition no_target : Env :=
  sample_env (fun _ => no_target_answers) (fun _ => nobody) false.

(** As [desktop], but [page.mouse.down] raises a transport error. *)
Definition press_fails_answers (c : Call) : outcome (resp c) :=
  match c with
  | page_mouse_down => Raises (Exception "Target closed")
  | c' => all_ok c'
  end.

Definition press_fails : Env :=
  sample_env (fun _ => press_fails_answers) (fun _ => nobody) false.

(** Dicts handed to [move_to]. *)
Definition only_y : gmap string Q := <["y" := 4%Q]> ∅.

Definition xyz : gmap string Q :=
  <["x" := 3%Q]> (<["y" := 4%Q]> (<["z" := 9%Q]> ∅)).


(** A click without selector on the desktop, once the detection is
    done. *)
Definition desktop_detected : State :=
  Eval vm_compute in final (detect_mobile desktop fresh_busy).


(** ** The target's region *)

(** [v] lies in the rectangle [b]. *)
Definition in_box (b : Box.t) (v : Vector.t) : Prop :=
  (Box.x b <= Vector.x v <= Box.x b + Box.width b)%Q
  /\ (Box.y b <= Vector.y v <= Box.y b + Box.height b)%Q.

(** "a correction path back into the target's region": the last point
    dispatched between [s] and [s'] lies in the target's box. *)
Definition ends_in_target (box : Box.t) (s s' : State) : Prop :=
  exists v, last (dispatched (since s s')) = Some v /\ in_box box v.

(** An environment whose helpers stay inside the box they are handed:
    the sampled point of a box is its centre, and a path to a box ends
    on the corner of that box opposite to its origin.  Every target is
    far enough to overshoot. *)
Definition centre (b : Box.t) : Vector.t :=
  Vector.mk (Qred (Box.x b + Box.width b / 2)) (Qred (Box.y b + Box.height b / 2)).

Definition far_corner (b : Box.t) : Vector.t :=
  Vector.mk (Qred (Box.x b + Box.width b)) (Qred (Box.y b + Box.height b)).

Definition path_into (v : Vector.t) (target : Target) : list Vector.t :=
  match target with
  | ToPoint w => [v; w]
  | ToBox b => [v; far_corner b]
  end.

Definition centred : Env :=
  mkEnv (fun _ => all_ok) (fun _ => nobody) (fun a b => Ok (a / b)%Q)
        (fun _ => (1 # 2)%Q)
        (fun _ v target _ => path_into v target)
        (fun _ _ _ => true)
        (fun _ v _ => beside v)
        (fun _ b _ => centre b).


(** As [desktop], but every quotient is beyond the range of a float. *)
Definition overflowing : Env :=
  mkEnv (fun _ => all_ok) (fun _ => nobody)
        (fun _ _ =>
           Raises (Exception
                     "OverflowError: integer division result too large for a float"))
        (fun _ => (1 # 2)%Q)
        (fun _ v target _ => straight v target)
        (fun _ _ _ => false)
        (fun _ v _ => beside v)
        (fun _ b _ => corner b).

(** * Reasoning about runs *)

Lemma since_app (s s' : State) (new : list Event) :
  events s' = events s ++ new -> since s s' = new.
Proof.
  intros H. unfold since. rewrite H. apply drop_app_length.
Qed.

Lemma since_refl (s : State) : since s s = [].
Proof. apply since_app. symmetry. apply app_nil_r. Qed.

Lemma dispatched_app (l k : list Event) :
  dispatched (l ++ k) = dispatched l ++ dispatched k.
Proof.
  induction l as [|[[] ok|] l IH]; simpl; auto. now rewrite IH.
Qed.

Lemma delivered_app (l k : list Event) :
  delivered (l ++ k) = delivered l ++ delivered k.
Proof.
  induction l as [|[[] []|] l IH]; simpl; auto. now rewrite IH.
Qed.

Lemma pointer_events_app (l k : list Event) :
  pointer_events (l ++ k) = pointer_events l ++ pointer_events k.
Proof.
  induction l as [|e l IH]; simpl; auto.
  destruct (is_pointer_event e); simpl; now rewrite IH.
Qed.

Lemma pointer_events_none (l : list Event) :
  Forall no_motion l -> pointer_events l = [].
Proof.
  induction 1 as [|e l He _ IH]; simpl; auto.
  unfold no_motion in He. now rewrite He.
Qed.

Lemma dispatched_moves (p : list Vector.t) : dispatched (moves p) = p.
Proof. induction p as [|v p IH]; simpl; auto. now rewrite IH. Qed.

Lemma delivered_moves (p : list Vector.t) : delivered (moves p) = p.
Proof. induction p as [|v p IH]; simpl; auto. now rewrite IH. Qed.

(** ** Rules for [logs] *)

Section Logs.

Variable env : Env.
Variable P : Event -> Prop.

Lemma logs_ret {A} (a : A) : logs P (ret a).
Proof. intros s. exists []. simpl. split; [now rewrite app_nil_r | constructor]. Qed.

Lemma logs_raise {A} (e : PyExn) : logs P (@raise A e).
Proof. intros s. exists []. simpl. split; [now rewrite app_nil_r | constructor]. Qed.

Lemma logs_bind {A B} (m : M A) (k : A -> M B) :
  logs P m -> (forall a, logs P (k a)) -> logs P (bind m k).
Proof.
  intros Hm Hk s. unfold bind.
  destruct (Hm s) as (n1 & E1 & F1).
  destruct (m s) as [a s1|e s1]; simpl in *.
  - destruct (Hk a s1) as (n2 & E2 & F2).
    exists (n1 ++ n2). rewrite E2, E1, app_assoc.
    split; [reflexivity | now apply Forall_app].
  - now exists n1.
Qed.

Lemma logs_try_except_Exception {A} (body : M A) (handler : string -> M A) :
  logs P body -> (forall msg, logs P (handler msg)) ->
  logs P (try_except_Exception body handler).
Proof.
  intros Hb Hh s. unfold try_except_Exception.
  destruct (Hb s) as (n1 & E1 & F1).
  destruct (body s) as [a s1|[msg|msg] s1]; simpl in *;
    [now exists n1 | | now exists n1].
  destruct (Hh msg s1) as (n2 & E2 & F2).
  exists (n1 ++ n2). rewrite E2, E1, app_assoc.
  split; [reflexivity | now apply Forall_app].
Qed.

Lemma logs_try_except {A} (body handler : M A) :
  logs P body -> logs P handler -> logs P (try_except body handler).
Proof.
  intros Hb Hh s. unfold try_except.
  destruct (Hb s) as (n1 & E1 & F1).
  destruct (body s) as [a s1|e s1]; simpl in *; [now exists n1 |].
  destruct (Hh s1) as (n2 & E2 & F2).
  exists (n1 ++ n2). rewrite E2, E1, app_assoc.
  split; [reflexivity | now apply Forall_app].
Qed.

Lemma logs_get_self : logs P get_self.
Proof. intros s. exists []. simpl. split; [now rewrite app_nil_r | constructor]. Qed.

Lemma logs_with_self (f : GhostCursor -> GhostCursor) :
  logs P (fun s => Val tt (with_self f s)).
Proof. intros s. exists []. simpl. split; [now rewrite app_nil_r | constructor]. Qed.

Lemma logs_draw {A} (f : nat -> A) : logs P (draw f).
Proof. intros s. exists []. simpl. split; [now rewrite app_nil_r | constructor]. Qed.

Lemma logs_divide (a b : Q) : logs P (divide env a b).
Proof.
  intros s. exists []. unfold divide.
  destruct (true_divide env a b); simpl;
    (split; [now rewrite app_nil_r | constructor]).
Qed.

Lemma logs_logger_debug (msg : string) :
  P (Logged msg) -> logs P (logger_debug msg).
Proof. intros H s. exists [Logged msg]. simpl. split; [reflexivity | now repeat constructor]. Qed.

Lemma logs_call (c : Call) :
  (forall ok, P (Called c ok)) -> logs P (call env c).
Proof.
  intros H s. unfold call.
  exists [Called c (succeeded (respond env (tick s) c))].
  destruct (respond env (tick s) c); simpl;
    (split; [reflexivity | repeat constructor; apply H]).
Qed.

Lemma logs_await (c : Call) :
  (forall ok, P (Called c ok)) -> logs P (await env c).
Proof.
  intros H s. unfold await.
  exists [Called c (succeeded (respond env (tick s) c))].
  destruct (respond env (tick s) c); simpl;
    (split; [reflexivity | repeat constructor; apply H]).
Qed.

End Logs.

Lemma logs_weaken {A} (P R : Event -> Prop) (m : M A) :
  (forall e, P e -> R e) -> logs P m -> logs R m.
Proof.
  intros HPR Hm s. destruct (Hm s) as (new & E & F).
  exists new. split; [exact E | eapply Forall_impl; eauto].
Qed.

(** One step of a [logs] proof: follow the shape of the program. *)
Ltac logs_step :=
  lazymatch goal with
  | |- logs _ (bind _ _) => apply logs_bind; [| intros ?]
  | |- logs _ (ret _) => apply logs_ret
  | |- logs _ (raise _) => apply logs_raise
  | |- logs _ get_self => apply logs_get_self
  | |- logs _ (draw _) => apply logs_draw
  | |- logs _ (divide _ _ _) => apply logs_divide
  | |- logs _ (set_previous _) => apply logs_with_self
  | |- logs _ (set_moving _) => apply logs_with_self
  | |- logs _ (set_is_mobile _) => apply logs_with_self
  | |- logs _ (set_cdp_session _) => apply logs_with_self
  | |- logs _ (toggle_random_move _) => apply logs_with_self
  | |- logs _ (try_except_Exception _ _) =>
      apply logs_try_except_Exception; [| intros ?]
  | |- logs _ (try_except _ _) => apply logs_try_except
  | |- logs _ (logger_debug _) => apply logs_logger_debug
  | |- logs _ (call ?e ?k) => apply (logs_call e) with (c := k); intros ?
  | |- logs _ (await ?e ?k) => apply (logs_await e) with (c := k); intros ?
  | |- logs _ (match ?x with _ => _ end) => destruct x
  end.

(** ** [trace_path] *)

Section Trace.

Variable env : Env.

(** What one iteration does, by cases on the flag, on the answer of
    [page.mouse.move] and on the answer of the connectivity check. *)
Lemma trace_step_cases (v : Vector.t) (abort_on_move : bool) (s : State) :
  if abort_on_move && moving (self s)
  then trace_step env v abort_on_move s = Val Return s
  else
    match respond env (tick s) (page_mouse_move v) with
    | Ok _ => trace_step env v abort_on_move s = Val Next (after_dispatch env v s)
    | Raises (BaseException msg) =>
        trace_step env v abort_on_move s
        = Err (BaseException msg) (awaited env (page_mouse_move v) false s)
    | Raises (Exception msg) =>
        match respond env (S (tick s)) page_browser_is_connected with
        | Ok true =>
            trace_step env v abort_on_move s = Val Next (after_warning env v msg s)
        | Ok false =>
            trace_step env v abort_on_move s = Val Return (after_check env v s)
        | Raises e =>
            trace_step env v abort_on_move s
            = Err e (awaited env page_browser_is_connected false
                       (awaited env (page_mouse_move v) false s))
        end
    end.
Proof.
  unfold trace_step, try_except_Exception, bind, get_self, await.
  destruct (abort_on_move && moving (self s)) eqn:Hflag; simpl; [reflexivity|].
  destruct (respond env (tick s) (page_mouse_move v)) as [[]|[msg|msg]];
    simpl; try reflexivity.
  destruct (respond env (S (tick s)) page_browser_is_connected) as [[|]|e];
    reflexivity.
Qed.

Lemma trace_loop_app (pre post : list Vector.t) (abort_on_move : bool) (s : State) :
  trace_loop env (pre ++ post) abort_on_move s =
  match trace_loop env pre abort_on_move s with
  | Val Next s1 => trace_loop env post abort_on_move s1
  | r => r
  end.
Proof.
  revert s. induction pre as [|v pre IH]; intros s; simpl; [reflexivity|].
  unfold bind. destruct (trace_step env v abort_on_move s) as [[|] s1|e s1];
    simpl; auto.
Qed.

Lemma logs_trace_step (v : Vector.t) (abort_on_move : bool) :
  logs trace_event (trace_step env v abort_on_move).
Proof.
  unfold trace_step. repeat logs_step; exact I.
Qed.

Lemma logs_trace_loop (vectors : list Vector.t) (abort_on_move : bool) :
  logs trace_event (trace_loop env vectors abort_on_move).
Proof.
  induction vectors as [|v rest IH]; simpl.
  - apply logs_ret.
  - apply logs_bind; [apply logs_trace_step | intros []];
      [exact IH | apply logs_ret].
Qed.

Lemma logs_trace_path (vectors : list Vector.t) (abort_on_move : bool) :
  logs trace_event (trace_path env vectors abort_on_move).
Proof.
  unfold trace_path. apply logs_bind; [apply logs_trace_loop | intros ?; apply logs_ret].
Qed.

(** A loop that ran through [pre] has handed every point of [pre] to
    [page.mouse.move], and nothing else. *)
Lemma trace_loop_through (pre : list Vector.t) (abort_on_move : bool)
  (s s1 : State) :
  trace_loop env pre abort_on_move s = Val Next s1 ->
  exists new, events s1 = events s ++ new /\ dispatched new = pre.
Proof.
  revert s. induction pre as [|v pre IH]; intros s; simpl.
  - intros [= <-]. exists []. now rewrite app_nil_r.
  - unfold bind. pose proof (trace_step_cases v abort_on_move s) as Hc.
    destruct (abort_on_move && moving (self s)).
    + rewrite Hc. discriminate.
    + destruct (respond env (tick s) (page_mouse_move v)) as [[]|[msg|msg]].
      * rewrite Hc. intros H. destruct (IH _ H) as (new & E & D).
        exists (Called (page_mouse_move v) true :: new). simpl in *.
        rewrite E, <- app_assoc. simpl. now rewrite D.
      * destruct (respond env (S (tick s)) page_browser_is_connected) as [[|]|e];
          rewrite Hc; try discriminate.
        intros H. destruct (IH _ H) as (new & E & D).
        eexists (_ :: _ :: _ :: new). simpl in *.
        rewrite E, <- !app_assoc. simpl. split; [reflexivity|]. now rewrite D.
      * rewrite Hc. discriminate.
Qed.

End Trace.

(** ** Rules for [triple] *)

Section Triples.

Variable env : Env.

Lemma triple_conseq {A} (Pre Pre' : GhostCursor -> Prop) (m : M A)
  (Post Post' : A -> GhostCursor -> Prop)
  (Exc Exc' : PyExn -> GhostCursor -> Prop) :
  triple Pre m Post Exc ->
  (forall c, Pre' c -> Pre c) ->
  (forall a c, Post a c -> Post' a c) ->
  (forall e c, Exc e c -> Exc' e c) ->
  triple Pre' m Post' Exc'.
Proof.
  intros H HP HQ HE s Hs. specialize (H s (HP _ Hs)).
  destruct (m s); auto.
Qed.

Lemma triple_anything {A} (Pre : GhostCursor -> Prop) (m : M A) :
  triple Pre m anything anything.
Proof. intros s _. now destruct (m s). Qed.

Lemma triple_ret {A} Pre (a : A) Post Exc :
  (forall c, Pre c -> Post a c) -> triple Pre (ret a) Post Exc.
Proof. intros H s Hs. simpl. auto. Qed.

Lemma triple_raise {A} Pre (e : PyExn) (Post : A -> GhostCursor -> Prop) Exc :
  (forall c, Pre c -> Exc e c) -> triple Pre (raise e) Post Exc.
Proof. intros H s Hs. simpl. auto. Qed.

Lemma triple_bind {A B} Pre (m : M A) (k : A -> M B) Mid Post Exc :
  triple Pre m Mid Exc ->
  (forall a, triple (Mid a) (k a) Post Exc) ->
  triple Pre (bind m k) Post Exc.
Proof.
  intros Hm Hk s Hs. unfold bind. specialize (Hm s Hs).
  destruct (m s) as [a s1|e s1]; [apply (Hk a s1 Hm) | exact Hm].
Qed.

Lemma triple_try_except_Exception {A} Pre (body : M A)
  (handler : string -> M A) Post Exc1 Exc :
  triple Pre body Post Exc1 ->
  (forall msg, triple (Exc1 (Exception msg)) (handler msg) Post Exc) ->
  (forall msg c, Exc1 (BaseException msg) c -> Exc (BaseException msg) c) ->
  triple Pre (try_except_Exception body handler) Post Exc.
Proof.
  intros Hb Hh HE s Hs. unfold try_except_Exception. specialize (Hb s Hs).
  destruct (body s) as [a s1|[msg|msg] s1]; auto. apply (Hh msg s1 Hb).
Qed.

Lemma triple_try_except {A} Pre (body handler : M A) Post Exc1 Exc :
  triple Pre body Post Exc1 ->
  triple (fun c => exists e, Exc1 e c) handler Post Exc ->
  triple Pre (try_except body handler) Post Exc.
Proof.
  intros Hb Hh s Hs. unfold try_except. specialize (Hb s Hs).
  destruct (body s) as [a s1|e s1]; auto. apply (Hh s1). eauto.
Qed.

Lemma triple_get_self Pre (Post : GhostCursor -> GhostCursor -> Prop) Exc :
  (forall c, Pre c -> Post c c) -> triple Pre get_self Post Exc.
Proof. intros H s Hs. simpl. auto. Qed.

Lemma triple_with_self Pre (f : GhostCursor -> GhostCursor) Post Exc :
  (forall c, Pre c -> Post tt (f c)) ->
  triple Pre (fun s => Val tt (with_self f s)) Post Exc.
Proof. intros H s Hs. simpl. auto. Qed.

Lemma triple_draw {A} Pre (f : nat -> A) Post Exc :
  (forall t c, Pre c -> Post (f t) c) -> triple Pre (draw f) Post Exc.
Proof. intros H s Hs. simpl. auto. Qed.

Lemma triple_divide Pre (a b : Q) Post Exc :
  (forall q c, Pre c -> Post q c) ->
  (forall e c, Pre c -> Exc e c) ->
  triple Pre (divide env a b) Post Exc.
Proof.
  intros HQ HE s Hs. unfold divide.
  destruct (true_divide env a b); simpl; auto.
Qed.

Lemma triple_logger_debug Pre (msg : string) Post Exc :
  (forall c, Pre c -> Post tt c) -> triple Pre (logger_debug msg) Post Exc.
Proof. intros H s Hs. simpl. auto. Qed.

Lemma triple_call Pre (c : Call) Post Exc :
  (forall a c0, Pre c0 -> Post a c0) ->
  (forall e c0, Pre c0 -> Exc e c0) ->
  triple Pre (call env c) Post Exc.
Proof.
  intros HQ HE s Hs. unfold call.
  destruct (respond env (tick s) c); simpl; auto.
Qed.

Lemma triple_await Pre (c : Call) Post Exc :
  (forall t a c0, Pre c0 -> Post a (interfere (other_tasks env t) c0)) ->
  (forall t e c0, Pre c0 -> Exc e (interfere (other_tasks env t) c0)) ->
  triple Pre (await env c) Post Exc.
Proof.
  intros HQ HE s Hs. unfold await.
  destruct (respond env (tick s) c); simpl; auto.
Qed.

End Triples.

Lemma preserves_final {A} (I : GhostCursor -> Prop) (m : M A) (s : State) :
  preserves I m -> I (self s) -> I (self (final (m s))).
Proof.
  intros H Hs. specialize (H s Hs). now destruct (m s).
Qed.

(** One step of a proof that [I] is preserved; [side] closes the
    conditions on the primitives. *)
Ltac preserves_step side :=
  lazymatch goal with
  | |- preserves _ _ => unfold preserves
  | |- triple ?I (bind _ _) _ _ =>
      apply triple_bind with (Mid := fun _ => I); [| intros ?]
  | |- triple _ (ret _) _ _ => apply triple_ret; side
  | |- triple _ (raise _) _ _ => apply triple_raise; side
  | |- triple _ get_self _ _ => apply triple_get_self; side
  | |- triple _ (draw _) _ _ => apply triple_draw; side
  | |- triple _ (divide _ _ _) _ _ => apply triple_divide; side
  | |- triple _ (set_previous _) _ _ => apply triple_with_self; side
  | |- triple _ (set_moving _) _ _ => apply triple_with_self; side
  | |- triple _ (set_cdp_session _) _ _ => apply triple_with_self; side
  | |- triple _ (toggle_random_move _) _ _ => apply triple_with_self; side
  | |- triple ?I (try_except_Exception _ _) _ _ =>
      apply triple_try_except_Exception with (Exc1 := fun _ => I);
      [| intros ? | side]
  | |- triple ?I (try_except _ _) _ _ =>
      apply triple_try_except with (Exc1 := fun _ => I);
      [| apply triple_conseq with (Pre := I) (Post := fun _ => I)
                                  (Exc := fun _ => I);
         [| intros ? [_ ?]; assumption | auto | auto]]
  | |- triple _ (logger_debug _) _ _ => apply triple_logger_debug; side
  | |- triple _ (call ?e ?k) _ _ => apply (triple_call e) with (c := k); side
  | |- triple _ (await ?e ?k) _ _ => apply (triple_await e) with (c := k); side
  | |- triple _ (match ?x with _ => _ end) _ _ => destruct x
  end.

(** ** Invariants of the controller object *)

Section Frame.

Variable env : Env.
Variable I : GhostCursor -> Prop.

Hypothesis I_interfere : forall t c, I c -> I (interfere (other_tasks env t) c).
Hypothesis I_previous : forall v c, I c -> I (with_previous v c).
Hypothesis I_cdp_session : forall d c, I c -> I (with_cdp_session d c).
Hypothesis I_is_mobile :
  forall b c, I c -> is_mobile c = None -> I (with_is_mobile b c).

Lemma preserves_detect_mobile : preserves I (detect_mobile env).
Proof.
  intros s Hs. unfold detect_mobile, bind, get_self, await.
  destruct (is_mobile (self s)) as [b|] eqn:Hcache; simpl; [exact Hs |].
  destruct (respond env (tick s) page_evaluate) as [b|e]; simpl.
  - apply I_is_mobile; [now apply I_interfere | exact Hcache].
  - now apply I_interfere.
Qed.

Lemma preserves_trace_step (v : Vector.t) (abort_on_move : bool) :
  preserves I (trace_step env v abort_on_move).
Proof.
  unfold trace_step. repeat preserves_step ltac:(intros; auto).
Qed.

Lemma preserves_trace_loop (vectors : list Vector.t) (abort_on_move : bool) :
  preserves I (trace_loop env vectors abort_on_move).
Proof.
  induction vectors as [|v rest IH]; simpl.
  - apply triple_ret; auto.
  - apply triple_bind with (Mid := fun _ => I);
      [apply preserves_trace_step | intros []];
      [exact IH | apply triple_ret; auto].
Qed.

Lemma preserves_trace_path (vectors : list Vector.t) (abort_on_move : bool) :
  preserves I (trace_path env vectors abort_on_move).
Proof.
  unfold trace_path.
  apply triple_bind with (Mid := fun _ => I);
    [apply preserves_trace_loop | intros ?; apply triple_ret; auto].
Qed.

Lemma preserves_get_random_page_point :
  preserves I (get_random_page_point env).
Proof.
  unfold get_random_page_point, get_cdp_session.
  repeat preserves_step ltac:(intros; auto).
Qed.

(** What follows also needs [I] to survive writes of the flag. *)
Hypothesis I_moving : forall b c, I c -> I (with_moving b c).

Lemma preserves_random_move : preserves I (random_move env).
Proof.
  unfold random_move, random_move_body.
  repeat first [ apply preserves_trace_path
               | apply preserves_get_random_page_point
               | preserves_step ltac:(intros; auto) ].
Qed.

Lemma preserves_move (selector : Selector)
  (padding_percentage wait_for_selector : option Q) :
  preserves I (move env selector padding_percentage wait_for_selector).
Proof.
  unfold move, resolve_box, move_to_box.
  repeat first [ apply preserves_trace_path
               | preserves_step ltac:(intros; auto) ].
Qed.

Lemma preserves_click (selector : option Selector)
  (padding_percentage wait_for_selector wait_for_click : option Q) :
  preserves I
    (click env selector padding_percentage wait_for_selector wait_for_click).
Proof.
  unfold click, click_move_phase, click_dispatch.
  repeat first [ apply preserves_move
               | apply preserves_detect_mobile
               | preserves_step ltac:(intros; auto) ].
Qed.

Lemma preserves_move_to (destination : gmap string Q) :
  preserves I (move_to env destination).
Proof.
  unfold move_to, subscript.
  repeat first [ apply preserves_trace_path
               | preserves_step ltac:(intros; auto) ].
Qed.

End Frame.

(** * The claims *)

(** ** C4: an explicit operation interrupts a background trace *)

(** C4.  Let [trace_path] be called with [abort_on_move] set on a path
    [pre ++ v :: post].  If the loop arrives at [v] (in state [s1]) and
    the suppression flag [moving] is set at that moment, then
    [trace_path] returns normally in that very state: the points handed
    to [page.mouse.move] are exactly those of [pre], and neither [v] nor
    any point of [post] is dispatched. *)
Theorem trace_path_aborts_on_move (env : Env) (pre : list Vector.t)
  (v : Vector.t) (post : list Vector.t) (s s1 : State) :
  trace_loop env pre true s = Val Next s1 ->
  moving (self s1) = true ->
  trace_path env (pre ++ v :: post) true s = Val tt s1
  /\ dispatched (since s s1) = pre.
Proof.
  intros Hpre Hflag. split.
  - unfold trace_path, bind. rewrite trace_loop_app, Hpre. simpl.
    unfold bind. pose proof (trace_step_cases env v true s1) as Hc.
    rewrite Hflag in Hc. simpl in Hc. now rewrite Hc.
  - destruct (trace_loop_through env pre true s s1 Hpre) as (new & E & D).
    now rewrite (since_app s s1 new E).
Qed.

Lemma trace_path_aborts_on_move_witness :
  (trace_loop interrupted [pt 1; pt 2] true fresh
   = Val Next (after_dispatch interrupted (pt 2)
                 (after_dispatch interrupted (pt 1) fresh))
   /\ moving (self (after_dispatch interrupted (pt 2)
                      (after_dispatch interrupted (pt 1) fresh))) = true)
  /\ trace_path interrupted [pt 1; pt 2; pt 3; pt 4] true fresh
     = Val tt (after_dispatch interrupted (pt 2)
                 (after_dispatch interrupted (pt 1) fresh))
  /\ dispatched (since fresh (after_dispatch interrupted (pt 2)
                                (after_dispatch interrupted (pt 1) fresh)))
     = [pt 1; pt 2].
Proof.
  split; [split; reflexivity |].
  apply (trace_path_aborts_on_move interrupted [pt 1; pt 2] (pt 3) [pt 4] fresh);
    reflexivity.
Defined.

(** ** C1: a failing dispatch inside [trace_path] *)

(** C1, as worded, fails: on a path of two points whose first dispatch
    raises a transport error while the browser is connected,
    [trace_path] returns normally but goes on to dispatch the second
    point. *)
Lemma trace_path_goes_on_after_failure :
  respond flaky_once 0 (page_mouse_move (pt 1))
  = Raises (Exception "Target closed")
  /\ respond flaky_once 1 page_browser_is_connected = Ok true
  /\ exists s', trace_path flaky_once [pt 1; pt 2] false fresh = Val tt s'
                /\ ~ stops_after_failed_dispatch fresh s'.
Proof.
  split; [reflexivity | split; [reflexivity |]].
  eexists. split; [reflexivity |].
  intros H. specialize (H [] (pt 1) _ eq_refl). discriminate H.
Qed.

(** C1, amended.  Let the loop of [trace_path] arrive at [v] without
    being stopped by the flag, and let the dispatch of [v] raise an
    [Exception].  If the connectivity check answers connected, the
    failure is logged, [previous] is not set to [v], and the trace goes
    on with the remaining points from there: no exception reaches the
    caller because of it and the sequence is not cut short.  If the
    check answers disconnected, [trace_path] returns at once, dispatching
    nothing more.  If the check itself raises, that exception is the
    outcome. *)
Theorem trace_path_transient_failure (env : Env) (pre : list Vector.t)
  (v : Vector.t) (post : list Vector.t) (abort_on_move : bool)
  (s s1 : State) (msg : string) :
  trace_loop env pre abort_on_move s = Val Next s1 ->
  abort_on_move && moving (self s1) = false ->
  respond env (tick s1) (page_mouse_move v) = Raises (Exception msg) ->
  match respond env (S (tick s1)) page_browser_is_connected with
  | Ok true =>
      trace_path env (pre ++ v :: post) abort_on_move s
      = trace_path env post abort_on_move (after_warning env v msg s1)
  | Ok false =>
      trace_path env (pre ++ v :: post) abort_on_move s
      = Val tt (after_check env v s1)
  | Raises e =>
      trace_path env (pre ++ v :: post) abort_on_move s
      = Err e (awaited env page_browser_is_connected false
                 (awaited env (page_mouse_move v) false s1))
  end.
Proof.
  intros Hpre Hflag Hmove.
  pose proof (trace_step_cases env v abort_on_move s1) as Hc.
  rewrite Hflag, Hmove in Hc.
  unfold trace_path, bind. rewrite trace_loop_app, Hpre. simpl. unfold bind.
  destruct (respond env (S (tick s1)) page_browser_is_connected) as [[|]|e];
    now rewrite Hc.
Qed.

Lemma trace_path_transient_failure_witness :
  (trace_loop flaky_once [] false fresh = Val Next fresh
   /\ false && moving (self fresh) = false
   /\ respond flaky_once (tick fresh) (page_mouse_move (pt 1))
      = Raises (Exception "Target closed"))
  /\ trace_path flaky_once ([] ++ pt 1 :: [pt 2]) false fresh
     = trace_path flaky_once [pt 2] false
         (after_warning flaky_once (pt 1) "Target closed" fresh).
Proof.
  split; [repeat split |].
  exact (trace_path_transient_failure flaky_once [] (pt 1) [pt 2] false
           fresh fresh "Target closed" eq_refl eq_refl eq_refl).
Defined.

(** ** C2: the suppression flag at the exits of an explicit operation *)

(** One step of a proof about the state in which an operation returns:
    only the last action matters. *)
Ltac returns_step :=
  lazymatch goal with
  | |- triple _ (bind _ _) _ _ =>
      apply triple_bind with (Mid := anything);
      [apply triple_anything | intros ?]
  | |- triple _ (raise _) _ _ => apply triple_raise; intros; exact I
  | |- triple _ (toggle_random_move _) _ _ =>
      apply triple_with_self; intros; reflexivity
  | |- triple _ (match ?x with _ => _ end) _ _ => destruct x
  end.

Lemma returns_idle (env : Env) (op : Operation) :
  triple (fun _ => True) (run_operation env op)
         (fun _ c => moving c = false) anything.
Proof.
  destruct op; simpl;
    unfold move, move_to_box, click, move_to, subscript;
    repeat returns_step.
Qed.

(** C2, as worded, fails: [move] on a selector that matches nothing
    raises, and the flag is still set when the exception leaves it. *)
Lemma move_raises_with_flag_set :
  exists s',
    run_operation no_such_element (OpMove (SelStr "#gone") None None) fresh
    = Err (Exception (not_found_message "#gone")) s'
    /\ moving (self s') = true
    /\ ~ flag_cleared_on_exit
           (run_operation no_such_element
              (OpMove (SelStr "#gone") None None) fresh).
Proof.
  eexists. split; [vm_compute; reflexivity | split; [reflexivity |]].
  unfold flag_cleared_on_exit. vm_compute. discriminate.
Qed.

(** There is no clean-up on the error exits.  When no other task writes
    the flag, [move] and [click] that raise leave it set. *)
Section ErrorExits.

Variable env : Env.
Hypothesis env_quiet : quiet env.

Lemma busy_interfere (t : nat) (c : GhostCursor) :
  busy c -> busy (interfere (other_tasks env t) c).
Proof. rewrite env_quiet. auto. Qed.

Ltac busy_side := intros; first [apply busy_interfere; assumption | assumption].

Ltac keeps_busy :=
  repeat first
    [ apply (preserves_trace_path env busy); busy_side
    | apply (preserves_detect_mobile env busy); busy_side
    | preserves_step busy_side ].

Ltac guarded_step :=
  lazymatch goal with
  | |- triple busy (bind _ _) anything _ =>
      apply triple_bind with (Mid := fun _ => busy); [keeps_busy | intros ?]
  | |- triple _ (raise _) _ _ => apply triple_raise; auto
  | |- triple _ (toggle_random_move _) _ _ =>
      apply triple_with_self; intros; exact Logic.I
  | |- triple _ (match ?x with _ => _ end) _ _ => destruct x
  end.

Lemma move_raises_busy (selector : Selector)
  (padding_percentage wait_for_selector : option Q) :
  triple (fun _ => True)
    (move env selector padding_percentage wait_for_selector)
    anything (fun _ => busy).
Proof.
  unfold move, resolve_box.
  apply triple_bind with (Mid := fun _ => busy).
  - apply triple_bind with (Mid := fun _ => busy);
      [apply triple_with_self; intros; reflexivity | intros _].
    keeps_busy.
  - intros [box|]; [| apply triple_raise; auto].
    unfold move_to_box. repeat guarded_step.
Qed.

Lemma click_raises_busy (selector : option Selector)
  (padding_percentage wait_for_selector wait_for_click : option Q) :
  triple (fun _ => True)
    (click env selector padding_percentage wait_for_selector wait_for_click)
    anything (fun _ => busy).
Proof.
  unfold click.
  apply triple_bind with (Mid := fun _ => busy).
  - unfold click_move_phase.
    apply triple_bind with (Mid := fun _ => busy);
      [apply triple_with_self; intros; reflexivity | intros _].
    apply triple_bind with (Mid := fun _ => busy); [keeps_busy | intros c0].
    destruct selector as [sel|]; [| keeps_busy].
    apply triple_bind with (Mid := anything).
    + eapply triple_conseq; [apply move_raises_busy | simpl; auto ..].
    + intros ?.
      apply triple_bind with (Mid := fun _ => busy);
        [apply triple_with_self; intros; reflexivity | intros _].
      keeps_busy.
  - intros coords. unfold click_dispatch. repeat guarded_step.
Qed.

Lemma raise_leaves_flag_set (op : Operation) (s s' : State) (e : PyExn) :
  match op with OpMoveTo _ => False | _ => True end ->
  run_operation env op s = Err e s' -> moving (self s') = true.
Proof.
  intros Hop H. destruct op as [sel pad wfs|sel pad wfs wfc|d]; simpl in H.
  - pose proof (move_raises_busy sel pad wfs s Logic.I) as Hr.
    now rewrite H in Hr.
  - pose proof (click_raises_busy sel pad wfs wfc s Logic.I) as Hr.
    now rewrite H in Hr.
  - destruct Hop.
Qed.

End ErrorExits.

(** C2, amended.  Whenever [move], [click] or [move_to] returns
    normally, the suppression flag is cleared ([moving] is [False]) in
    the state it returns in.  On the error exits there is no clean-up:
    when no other task writes the flag, [move] and [click] that raise
    leave it set ([moving] is [True]). *)
Theorem operation_flag_at_exit (env : Env) (op : Operation) (s : State) :
  (forall s', run_operation env op s = Val tt s' -> moving (self s') = false)
  /\ (forall e s',
        quiet env ->
        match op with OpMoveTo _ => False | _ => True end ->
        run_operation env op s = Err e s' -> moving (self s') = true).
Proof.
  split.
  - intros s' H. pose proof (returns_idle env op s Logic.I) as Hr.
    now rewrite H in Hr.
  - intros e s' Hq Hop H. exact (raise_leaves_flag_set env Hq op s s' e Hop H).
Qed.

Lemma operation_flag_at_exit_witness :
  (exists s',
     run_operation desktop (OpClick (Some (SelStr "#a")) None None None) fresh
     = Val tt s'
     /\ moving (self s') = false)
  /\ (quiet no_such_element
      /\ exists e s',
           run_operation no_such_element (OpMove (SelStr "#gone") None None)
             fresh = Err e s'
           /\ moving (self s') = true).
Proof.
  split.
  - eexists. split; [vm_compute; reflexivity |].
    apply (proj1 (operation_flag_at_exit desktop
                    (OpClick (Some (SelStr "#a")) None None None) fresh)).
    vm_compute. reflexivity.
  - assert (Hq : quiet no_such_element) by (intros t; reflexivity).
    split; [exact Hq |].
    eexists. eexists. split; [vm_compute; reflexivity |].
    apply (proj2 (operation_flag_at_exit no_such_element
                    (OpMove (SelStr "#gone") None None) fresh)
             (Exception (not_found_message "#gone")) _ Hq Logic.I).
    vm_compute. reflexivity.
Defined.

(** ** C3: who writes [previous] *)

Section Previous.

Variable env : Env.
Hypothesis env_quiet : quiet env.

Lemma interfere_quiet (t : nat) (c : GhostCursor) :
  interfere (other_tasks env t) c = c.
Proof. rewrite env_quiet. now destruct c. Qed.

Lemma last_delivered_cons (v d : Vector.t) (l : list Vector.t) :
  default d (last (v :: l)) = default v (last l).
Proof. rewrite last_cons. now destruct (last l). Qed.

(** After the loop, [previous] is the last delivered point of the
    loop, or what it was when none was delivered. *)
Lemma trace_loop_previous (vectors : list Vector.t) (abort_on_move : bool)
  (s s' : State) (f : Flow) :
  trace_loop env vectors abort_on_move s = Val f s' ->
  exists new,
    events s' = events s ++ new
    /\ previous (self s')
       = default (previous (self s)) (last (delivered new)).
Proof.
  revert s. induction vectors as [|v rest IH]; intros s; simpl.
  - intros [= _ <-]. exists []. now rewrite app_nil_r.
  - unfold bind. pose proof (trace_step_cases env v abort_on_move s) as Hc.
    destruct (abort_on_move && moving (self s)).
    { rewrite Hc. intros [= _ <-]. exists []. now rewrite app_nil_r. }
    destruct (respond env (tick s) (page_mouse_move v)) as [[]|[msg|msg]].
    + rewrite Hc. intros H. destruct (IH _ H) as (new & E & Hp).
      exists (Called (page_mouse_move v) true :: new). simpl in *.
      rewrite E, <- app_assoc. split; [reflexivity |].
      now rewrite Hp, last_delivered_cons.
    + destruct (respond env (S (tick s)) page_browser_is_connected) as [[|]|e];
        rewrite Hc; try discriminate.
      * intros H. destruct (IH _ H) as (new & E & Hp).
        exists (Called (page_mouse_move v) false
                :: Called page_browser_is_connected true
                :: Logged ("Warning: could not move mouse, error message: "
                           +:+ msg)
                :: new).
        rewrite E, Hp. unfold after_warning, after_check, awaited.
        rewrite !interfere_quiet. simpl.
        rewrite <- !app_assoc. split; reflexivity.
      * intros [= _ <-].
        exists [Called (page_mouse_move v) false;
                Called page_browser_is_connected true].
        unfold after_check, awaited. rewrite !interfere_quiet. simpl.
        rewrite <- !app_assoc. split; reflexivity.
    + rewrite Hc. discriminate.
Qed.

Lemma trace_path_previous (vectors : list Vector.t) (abort_on_move : bool)
  (s s' : State) :
  trace_path env vectors abort_on_move s = Val tt s' ->
  previous (self s')
  = default (previous (self s)) (last (delivered (since s s'))).
Proof.
  unfold trace_path, bind.
  destruct (trace_loop env vectors abort_on_move s) as [f s1|e s1] eqn:H;
    [| discriminate].
  intros [= <-]. destruct (trace_loop_previous _ _ _ _ _ H) as (new & E & Hp).
  now rewrite (since_app _ _ _ E).
Qed.

End Previous.

(** [move] ends by writing the sampled destination, whatever the traces
    did. *)
Lemma move_to_box_previous (env : Env) (box : Box.t)
  (padding_percentage : option Q) (s s' : State) :
  move_to_box env box padding_percentage s = Val tt s' ->
  previous (self s') = get_random_box_point env (tick s) box padding_percentage.
Proof.
  unfold move_to_box, bind, draw, get_self. simpl.
  destruct (should_overshoot env _ _ _); simpl.
  - destruct (trace_path env _ false _) as [[] s2|]; [| discriminate]. simpl.
    destruct (trace_path env _ false _) as [[] s3|]; [| discriminate]. simpl.
    now intros [= <-].
  - destruct (trace_path env _ false _) as [[] s2|]; [| discriminate]. simpl.
    now intros [= <-].
Qed.

(** An iteration of [random_move] that starts idle and runs to its end
    has written the sampled point. *)
Lemma random_move_body_previous (env : Env) (s s' : State) :
  quiet env ->
  moving (self s) = false ->
  random_move_body env s = Val tt s' ->
  exists rand s1,
    get_random_page_point env s = Val rand s1 /\ previous (self s') = rand.
Proof.
  intros Hq Hidle. unfold random_move_body, bind, get_self. rewrite Hidle.
  simpl.
  destruct (get_random_page_point env s) as [rand s1|]; [| discriminate].
  simpl.
  destruct (trace_path env _ true _) as [[] s2|]; [| discriminate]. simpl.
  unfold await, call. simpl.
  destruct (respond env _ (asyncio_sleep _)) as [[]|]; [| discriminate]. simpl.
  destruct (respond env _ asyncio_ensure_future_random_move) as [[]|];
    [| discriminate].
  intros [= <-]. exists rand, s1. simpl.
  split; [reflexivity |]. rewrite Hq. reflexivity.
Qed.

(** C3, as worded, fails: on a browser whose [page.mouse.move] always
    raises while it stays connected, and with no other task running,
    [move] returns with [previous] set to the sampled destination
    although no point at all was delivered. *)
Lemma move_records_undelivered_point :
  quiet flaky
  /\ exists s',
       move flaky (SelStr "#a") None None fresh = Val tt s'
       /\ delivered (since fresh s') = []
       /\ previous (self s') = Vector.mk 100 100
       /\ ~ previous_was_dispatched fresh s'.
Proof.
  split; [intros t; reflexivity |].
  eexists. split; [vm_compute; reflexivity |].
  split; [reflexivity | split; [reflexivity |]].
  intros [H | H]; [discriminate H | exact H].
Qed.

(** C3, amended.  With no other task writing the controller:
    [trace_path] sets [previous] only to delivered points (when it
    returns, [previous] is the last point delivered during the trace,
    or unchanged if none was); besides that, [move] that returns has
    set [previous] to the destination it sampled in the target's box,
    and an iteration of [random_move] that starts idle and runs to its
    end has set it to the random page point it sampled -- in both cases
    whether or not that point was delivered. *)
Theorem previous_writes (env : Env) :
  quiet env ->
  (forall vectors abort_on_move s s',
     trace_path env vectors abort_on_move s = Val tt s' ->
     previous (self s')
     = default (previous (self s)) (last (delivered (since s s'))))
  /\ (forall selector padding_percentage wait_for_selector s box s1 s',
        resolve_box env selector wait_for_selector s = Val (Some box) s1 ->
        move env selector padding_percentage wait_for_selector s = Val tt s' ->
        previous (self s')
        = get_random_box_point env (tick s1) box padding_percentage)
  /\ (forall s s',
        moving (self s) = false ->
        random_move_body env s = Val tt s' ->
        exists rand s1,
          get_random_page_point env s = Val rand s1
          /\ previous (self s') = rand).
Proof.
  intros Hq. split; [| split].
  - intros vs ab s s' H. exact (trace_path_previous env Hq vs ab s s' H).
  - intros sel pad wfs s box s1 s' Hres. unfold move, bind. rewrite Hres.
    apply move_to_box_previous.
  - intros s s' Hidle H. exact (random_move_body_previous env s s' Hq Hidle H).
Qed.

Lemma previous_writes_witness :
  quiet flaky
  /\ exists s1 s',
       resolve_box flaky (SelStr "#a") None fresh
       = Val (Some (Box.mk 100 100 40 20)) s1
       /\ move flaky (SelStr "#a") None None fresh = Val tt s'
       /\ previous (self s') = Vector.mk 100 100.
Proof.
  assert (Hq : quiet flaky) by (intros t; reflexivity).
  split; [exact Hq |].
  eexists. eexists.
  split; [vm_compute; reflexivity |].
  split; [vm_compute; reflexivity |].
  refine (proj1 (proj2 (previous_writes flaky Hq))
            (SelStr "#a") None None fresh (Box.mk 100 100 40 20) _ _ _ _);
    vm_compute; reflexivity.
Defined.

(** ** C5: the motion composed by [move] *)

Section Composition.

Variable env : Env.
Hypothesis env_moves : moves_succeed env.

Lemma trace_loop_succeeds (p : list Vector.t) (s : State) :
  trace_loop env p false s = Val Next (traced env p s).
Proof.
  revert s. induction p as [|v rest IH]; intros s; simpl; [reflexivity |].
  unfold bind. pose proof (trace_step_cases env v false s) as Hc.
  simpl in Hc. rewrite env_moves in Hc. rewrite Hc. apply IH.
Qed.

Lemma trace_path_succeeds (p : list Vector.t) (s : State) :
  trace_path env p false s = Val tt (traced env p s).
Proof. unfold trace_path, bind. now rewrite trace_loop_succeeds. Qed.

Lemma traced_events (p : list Vector.t) (s : State) :
  events (traced env p s) = events s ++ moves p.
Proof.
  revert s. induction p as [|v rest IH]; intros s; simpl.
  - now rewrite app_nil_r.
  - rewrite IH. simpl. now rewrite <- app_assoc.
Qed.

Lemma traced_tick (p : list Vector.t) (s : State) :
  tick (traced env p s) = tick s + length p.
Proof.
  revert s. induction p as [|v rest IH]; intros s; simpl; [lia |].
  rewrite IH. simpl. lia.
Qed.

Lemma traced_overshoot_spread (p : list Vector.t) (s : State) :
  overshoot_spread (self (traced env p s)) = overshoot_spread (self s).
Proof.
  revert s. induction p as [|v rest IH]; intros s; simpl; [reflexivity |].
  now rewrite IH.
Qed.

Lemma move_to_box_succeeds (box : Box.t) (padding_percentage : option Q)
  (s : State) :
  exists s',
    move_to_box env box padding_percentage s = Val tt s'
    /\ events s' = events s ++ moves (composed_motion env s box padding_percentage)
    /\ previous (self s')
       = get_random_box_point env (tick s) box padding_percentage
    /\ moving (self s') = false.
Proof.
  unfold move_to_box, composed_motion, bind, draw, get_self. simpl.
  replace (tick s + 1) with (S (tick s)) by lia.
  replace (tick s + 2) with (S (S (tick s))) by lia.
  replace (tick s + 3) with (S (S (S (tick s)))) by lia.
  destruct (should_overshoot env (S (tick s)) _ _); simpl.
  - match goal with
    | |- context [tick s + 4 + length ?p] =>
        replace (tick s + 4 + length p)
          with (S (S (S (S (tick s + length p))))) by lia
    end.
    rewrite trace_path_succeeds. simpl.
    rewrite traced_tick, traced_overshoot_spread. simpl.
    rewrite trace_path_succeeds. simpl.
    eexists. split; [reflexivity |]. simpl.
    rewrite !traced_events. simpl. unfold moves.
    now rewrite map_app, app_assoc.
  - rewrite trace_path_succeeds. simpl.
    eexists. split; [reflexivity |]. simpl.
    now rewrite traced_events.
Qed.

End Composition.

(** Without any assumption on the browser: [move_to_box] is the traces
    of the composition rule followed by the two final writes. *)
Lemma move_to_box_traces (env : Env) (box : Box.t)
  (padding_percentage : option Q) (s : State) :
  move_to_box env box padding_percentage s
  = (trace_composed env s box padding_percentage ;;
     set_previous (get_random_box_point env (tick s) box padding_percentage) ;;
     toggle_random_move true)
      (drawn env s box padding_percentage).
Proof.
  unfold move_to_box, trace_composed, drawn, bind, draw, get_self. simpl.
  replace (tick s + 1) with (S (tick s)) by lia.
  replace (tick s + 2) with (S (S (tick s))) by lia.
  replace (tick s + 3) with (S (S (S (tick s)))) by lia.
  destruct (should_overshoot env (S (tick s)) _ _); simpl.
  - replace (tick s + 4) with (S (S (S (S (tick s))))) by lia.
    destruct (trace_path env _ false _) as [[] s2|]; reflexivity.
  - replace (tick s + 3) with (S (S (S (tick s)))) by lia. reflexivity.
Qed.

(** C5, as worded, fails: the region handed to the correction is not the
    target's region.  With helpers that stay inside the box they are
    handed, [move] on a target [100,140]x[100,120] samples the
    destination (120,110) inside it, overshoots, and ends its correction
    on (160,130): inside the box of the target's size placed at the
    destination, outside the target. *)
Lemma move_corrects_outside_target :
  resolve_box centred (SelStr "#a") None fresh
  = Val (Some (Box.mk 100 100 40 20)) resolved
  /\ in_box (Box.mk 100 100 40 20)
       (get_random_box_point centred (tick resolved)
          (Box.mk 100 100 40 20) None)
  /\ exists s',
       move centred (SelStr "#a") None None fresh = Val tt s'
       /\ last (dispatched (since resolved s')) = Some (Vector.mk 160 130)
       /\ in_box (Box.mk 120 110 40 20) (Vector.mk 160 130)
       /\ ~ ends_in_target (Box.mk 100 100 40 20) resolved s'.
Proof.
  split; [reflexivity |].
  split; [unfold in_box, Qle; simpl; lia |].
  exists (final (move centred (SelStr "#a") None None fresh)).
  split; [vm_compute; reflexivity |].
  split; [vm_compute; reflexivity |].
  split; [unfold in_box, Qle; simpl; lia |].
  intros (v & Hlast & Hin).
  vm_compute in Hlast. injection Hlast as <-.
  destruct Hin as [[_ Hx] _]. unfold Qle in Hx. simpl in Hx. lia.
Qed.

(** C5, amended.  Let [move] have resolved its target to [box] (state
    [s1]).  Then what [move] does next is to trace the composed motion
    and to record the destination: if
    [should_overshoot(previous, destination)] holds, it traces
    [path(previous, overshoot(destination, overshoot_radius))] and then
    the correction [path(overshoot point, region, overshoot_spread)],
    where [region] is a box of the target's width and height placed at
    the sampled destination -- not the target's own box; otherwise it
    traces [path(previous, destination)] alone.  When [page.mouse.move]
    does not fail, [move] returns and the calls it made after the
    resolution are exactly the dispatches of those points, in that
    order. *)
Theorem move_composes_motion (env : Env) (selector : Selector)
  (padding_percentage wait_for_selector : option Q) (box : Box.t)
  (s s1 : State) :
  resolve_box env selector wait_for_selector s = Val (Some box) s1 ->
  move env selector padding_percentage wait_for_selector s
  = (trace_composed env s1 box padding_percentage ;;
     set_previous (get_random_box_point env (tick s1) box padding_percentage) ;;
     toggle_random_move true)
      (drawn env s1 box padding_percentage)
  /\ (moves_succeed env ->
      exists s',
        move env selector padding_percentage wait_for_selector s = Val tt s'
        /\ since s1 s' = moves (composed_motion env s1 box padding_percentage)).
Proof.
  intros Hres.
  assert (Hmove : move env selector padding_percentage wait_for_selector s
                  = move_to_box env box padding_percentage s1)
    by (unfold move, bind; now rewrite Hres).
  split.
  - rewrite Hmove. apply move_to_box_traces.
  - intros Hok. rewrite Hmove.
    destruct (move_to_box_succeeds env Hok box padding_percentage s1)
      as (s' & Hrun & Hev & _).
    exists s'. split; [exact Hrun | now apply since_app].
Qed.

Lemma move_composes_motion_witness :
  resolve_box centred (SelStr "#a") None fresh
  = Val (Some (Box.mk 100 100 40 20)) resolved
  /\ moves_succeed centred
  /\ exists s',
       move centred (SelStr "#a") None None fresh = Val tt s'
       /\ since resolved s'
          = moves [origin; Vector.mk 127 110; Vector.mk 127 110;
                   Vector.mk 160 130].
Proof.
  assert (Hok : moves_succeed centred) by (intros t v; reflexivity).
  split; [reflexivity | split; [exact Hok |]].
  exact (proj2 (move_composes_motion centred (SelStr "#a") None None
                  (Box.mk 100 100 40 20) fresh resolved eq_refl) Hok).
Defined.

(** ** C6: a target that cannot be resolved *)

Lemma logs_resolve_box (env : Env) (selector : Selector)
  (wait_for_selector : option Q) :
  logs no_motion (resolve_box env selector wait_for_selector).
Proof.
  unfold resolve_box. repeat logs_step; reflexivity.
Qed.

(** The two causes the claim names. *)
Lemma resolve_box_not_found (env : Env) (name : string) (s : State) :
  respond env (tick s) (page_query_selector name) = Ok None ->
  exists s1,
    resolve_box env (SelStr name) None s
    = Err (Exception (not_found_message name)) s1.
Proof.
  intros H. unfold resolve_box, bind, await. simpl. rewrite H.
  eexists. reflexivity.
Qed.

Lemma resolve_box_no_box (env : Env) (elem : ElementHandle) (s : State) :
  respond env (tick s) (elem_scroll_into_view_if_needed elem) = Ok tt ->
  respond env (S (tick s)) (elem_bounding_box elem) = Ok None ->
  exists s1, resolve_box env (SelElem elem) None s = Val None s1.
Proof.
  intros H1 H2. unfold resolve_box, bind, await. simpl. rewrite H1. simpl.
  rewrite H2. eexists. reflexivity.
Qed.

(** C6.  If [move] cannot resolve its target to a box -- the selector
    matches no element, the bounding box is unavailable after scrolling
    into view, or a call made on the way raises -- then [move] raises to
    its caller and no pointer event has been dispatched.  The exception
    is the "Could not find the dimensions" one when the bounding box is
    unavailable, and otherwise the one raised during the resolution
    (for a selector that matches nothing: "Could not find element with
    selector ..."). *)
Theorem move_unresolved_raises (env : Env) (selector : Selector)
  (padding_percentage wait_for_selector : option Q) (s : State) :
  (forall box s1,
     resolve_box env selector wait_for_selector s <> Val (Some box) s1) ->
  exists e s',
    move env selector padding_percentage wait_for_selector s = Err e s'
    /\ pointer_events (since s s') = []
    /\ (resolve_box env selector wait_for_selector s = Val None s'
        /\ e = Exception no_dimensions_message
        \/ resolve_box env selector wait_for_selector s = Err e s').
Proof.
  intros Hun. unfold move, bind.
  destruct (logs_resolve_box env selector wait_for_selector s)
    as (new & E & Hnew).
  destruct (resolve_box env selector wait_for_selector s)
    as [[box|] s1|e s1] eqn:Hres; simpl in E.
  - now destruct (Hun box s1).
  - exists (Exception no_dimensions_message), s1.
    split; [reflexivity |]. rewrite (since_app _ _ _ E).
    split; [now apply pointer_events_none | now left].
  - exists e, s1.
    split; [reflexivity |]. rewrite (since_app _ _ _ E).
    split; [now apply pointer_events_none | now right].
Qed.

Lemma move_unresolved_raises_witness :
  (forall box s1,
     resolve_box no_such_element (SelStr "#gone") None fresh
     <> Val (Some box) s1)
  /\ exists e s',
       move no_such_element (SelStr "#gone") None None fresh = Err e s'
       /\ pointer_events (since fresh s') = []
       /\ (resolve_box no_such_element (SelStr "#gone") None fresh
           = Val None s'
           /\ e = Exception no_dimensions_message
           \/ resolve_box no_such_element (SelStr "#gone") None fresh
              = Err e s').
Proof.
  assert (Hun : forall box s1,
             resolve_box no_such_element (SelStr "#gone") None fresh
             <> Val (Some box) s1)
    by (intros box s1 H; vm_compute in H; discriminate H).
  split; [exact Hun |].
  exact (move_unresolved_raises no_such_element (SelStr "#gone") None None
           fresh Hun).
Defined.

(** ** C7: the idle loop *)

Section IdleLoop.

Variable env : Env.

Lemma trace_event_not_rescheduled (e : Event) :
  trace_event e -> not_rescheduled e.
Proof. intros H Heq. subst e. exact H. Qed.

(** Everything before the last statement of the body leaves
    [ensure_future] alone. *)
Ltac idle_logs :=
  repeat first
    [ apply (logs_weaken trace_event not_rescheduled);
      [exact trace_event_not_rescheduled | apply logs_trace_path]
    | logs_step ];
  try discriminate.

Lemma logs_get_random_page_point :
  logs not_rescheduled (get_random_page_point env).
Proof. unfold get_random_page_point, get_cdp_session. idle_logs. Qed.

(** If the body raises, no next run has been scheduled. *)
Lemma random_move_body_raises (s s1 : State) (e : PyExn) :
  random_move_body env s = Err e s1 ->
  exists new, events s1 = events s ++ new /\ Forall not_rescheduled new.
Proof.
  unfold random_move_body.
  set (sampling := fun c : GhostCursor =>
    if negb (moving c)
    then (rand <- get_random_page_point env ;;
          c' <- get_self ;;
          p <- draw (fun t => path env t (previous c') (ToPoint rand) None) ;;
          trace_path env p true ;;
          set_previous rand)
    else ret tt).
  set (before :=
    (c <- get_self ;; sampling c ;;
     r <- draw (random_random env) ;;
     await env (asyncio_sleep (r * 2)%Q))).
  assert (Hbefore : logs not_rescheduled before).
  { unfold before, sampling.
    repeat first [ apply logs_get_random_page_point | progress idle_logs ]. }
  change (bind get_self (fun c => bind (sampling c) (fun _ =>
            bind (draw (random_random env)) (fun r =>
              bind (await env (asyncio_sleep (r * 2)%Q)) (fun _ =>
                call env asyncio_ensure_future_random_move)))) s
          = Err e s1 ->
          exists new, events s1 = events s ++ new /\ Forall not_rescheduled new).
  intros H.
  assert (Hsplit :
    bind before (fun _ => call env asyncio_ensure_future_random_move) s
    = Err e s1).
  { rewrite <- H. unfold before, bind, get_self.
    destruct (sampling (self s) s) as [[] s2|e2 s2]; [| reflexivity].
    unfold draw. destruct (await env _ _); reflexivity. }
  clear H. unfold bind in Hsplit.
  destruct (Hbefore s) as (new & E & Hnew).
  destruct (before s) as [[] s2|e2 s2]; simpl in E.
  - unfold call in Hsplit.
    destruct (respond env (tick s2) asyncio_ensure_future_random_move)
      as [[]|e3]; [discriminate |].
    injection Hsplit as _ <-. simpl.
    exists (new ++ [Called asyncio_ensure_future_random_move false]).
    rewrite E, app_assoc. split; [reflexivity |].
    apply Forall_app. split; [exact Hnew |]. repeat constructor. discriminate.
  - injection Hsplit as _ <-. now exists new.
Qed.

(** If the body returns, its last act was to schedule the next run. *)
Lemma bind_returns {A B} (Q : Prop) (m : M A) (k : A -> M B)
  (s : State) (b : B) (s' : State) :
  (forall a s1, k a s1 = Val b s' -> Q) -> bind m k s = Val b s' -> Q.
Proof.
  intros Hk. unfold bind. destruct (m s) as [a s1|]; [apply Hk | discriminate].
Qed.

Lemma random_move_body_returns (s s1 : State) :
  random_move_body env s = Val tt s1 ->
  exists old,
    events s1 = old ++ [Called asyncio_ensure_future_random_move true].
Proof.
  unfold random_move_body.
  do 4 (apply bind_returns; intros ? ?).
  unfold call.
  destruct (respond env _ asyncio_ensure_future_random_move)
    as [[]|]; [| discriminate].
  intros [= <-]. simpl. eauto.
Qed.

End IdleLoop.

(** A dispatch failure that [trace_path] absorbs is not a failure of the
    iteration: it never reaches the [except:] of [random_move].  With a
    [page.mouse.move] that raises transport errors on a connected
    browser, the iteration runs to its end and schedules the next
    run. *)
Lemma random_move_survives_absorbed_failure :
  exists s',
    random_move flaky fresh = Val tt s'
    /\ In (Called (page_mouse_move origin) false) (since fresh s')
    /\ In (Called asyncio_ensure_future_random_move true) (since fresh s').
Proof.
  eexists. split; [vm_compute; reflexivity |].
  split; vm_compute; tauto.
Qed.

(** C7.  [random_move] never propagates an exception: it always returns.
    Whatever is raised inside an iteration -- by the sampling of the
    random page point, by [trace_path], by the sleep or by the
    rescheduling itself -- is caught by its [except:]: the stop warning
    is logged and no next run has been scheduled.  An iteration in which
    nothing is raised ends by scheduling the next run. *)
Theorem random_move_never_raises (env : Env) (s : State) :
  exists s',
    random_move env s = Val tt s'
    /\ match random_move_body env s with
       | Val _ s1 =>
           s' = s1
           /\ exists old,
                events s' = old ++ [Called asyncio_ensure_future_random_move true]
       | Err _ s1 =>
           events s' = events s1 ++ [Logged stop_warning]
           /\ ~ In (Called asyncio_ensure_future_random_move true) (since s s')
       end.
Proof.
  unfold random_move, try_except.
  destruct (random_move_body env s) as [[] s1|e s1] eqn:Hbody.
  - exists s1. split; [reflexivity |]. split; [reflexivity |].
    now apply (random_move_body_returns env s).
  - eexists. split; [reflexivity |]. simpl. split; [reflexivity |].
    destruct (random_move_body_raises env s s1 e Hbody) as (new & E & Hnew).
    unfold since. simpl. rewrite E, <- app_assoc, drop_app_length.
    intros Hin. apply in_app_or in Hin. destruct Hin as [Hin | [Hin | []]].
    + rewrite Forall_forall in Hnew. apply list_elem_of_In in Hin.
      now apply (Hnew _ Hin).
    + discriminate Hin.
Qed.

(** ** C8: the press, the tap and the pause of [click] *)

Lemma click_move_phase_coords (env : Env) (selector : option Selector)
  (padding_percentage wait_for_selector : option Q)
  (s s1 : State) (target_coords : Vector.t) :
  click_move_phase env selector padding_percentage wait_for_selector s
  = Val target_coords s1 ->
  target_coords = previous (self s1).
Proof.
  unfold click_move_phase, bind, get_self. simpl.
  destruct selector as [sel|]; [| now intros [= <- <-]].
  destruct (move env sel _ _ _) as [[] s2|]; [| discriminate].
  now intros [= <- <-].
Qed.

(** The answer of a call that succeeded. *)
Ltac answered H :=
  match type of H with
  | succeeded (respond ?e ?t ?c) = true =>
      destruct (respond e t c) as [[]|?]; [clear H | discriminate H]
  end.

(** C8, as worded, fails: a [click] without [wait_for_click] on a
    desktop browser presses and releases with nothing in between. *)
Lemma click_without_hold :
  respond desktop 0 page_evaluate = Ok false
  /\ exists s',
       click desktop None None None None fresh = Val tt s'
       /\ events s'
          = [Called page_evaluate true; Called page_mouse_down true;
             Called page_mouse_up true;
             Called (asyncio_sleep ((1 # 2) * 2)%Q) true]
       /\ ~ holds_between_press_and_release (events s').
Proof.
  split; [reflexivity |].
  eexists. split; [vm_compute; reflexivity |]. split; [reflexivity |].
  intros (pre & d & post & H). simpl in H.
  destruct pre as [|e1 [|e2 [|e3 [|e4 [|e5 pre]]]]]; discriminate H.
Qed.

(** C8, amended.  Let the move phase of [click] be completed (with
    [target_coords] the position recorded at its end), let the surface
    be detected as touch-capable or not ([mobile]), and let the calls
    that [click] then makes succeed.  On a non-touch surface, provided
    [wait_for_click / 1000] can be computed when [wait_for_click] is
    given, [click] dispatches a press, then -- only if [wait_for_click]
    was given -- sleeps that quotient in seconds, the caller's value and
    not a random one, then dispatches the release.  On a touch-capable
    surface it dispatches one tap at [target_coords].  In both cases it
    then sleeps [random.random() * 2] seconds and returns with the flag
    cleared. *)
Theorem click_dispatches (env : Env) (selector : option Selector)
  (padding_percentage wait_for_selector wait_for_click : option Q)
  (s s1 s2 : State) (target_coords : Vector.t) (mobile : bool)
  (hold : option Q) :
  click_move_phase env selector padding_percentage wait_for_selector s
  = Val target_coords s1 ->
  detect_mobile env s1 = Val mobile s2 ->
  (mobile = false -> hold_seconds env wait_for_click = Ok hold) ->
  made_calls_succeed env s2 mobile target_coords hold ->
  target_coords = previous (self s1)
  /\ exists s',
       click env selector padding_percentage wait_for_selector wait_for_click s
       = Val tt s'
       /\ since s2 s'
          = click_events mobile target_coords hold
            ++ [Called (click_pause env s2 mobile target_coords hold) true]
       /\ moving (self s') = false.
Proof.
  intros Hphase Hdetect Hhold [Hcalls Hpause].
  split; [exact (click_move_phase_coords _ _ _ _ _ _ _ Hphase) |].
  unfold click, bind. rewrite Hphase.
  unfold click_dispatch, try_except_Exception, bind. rewrite Hdetect.
  unfold click_pause in *.
  destruct mobile; simpl in *.
  - pose proof (Hcalls 0 _ eq_refl) as H0.
    rewrite Nat.add_0_r in H0.
    replace (tick s2 + 1 + 1) with (S (S (tick s2))) in Hpause by lia.
    replace (tick s2 + 1) with (S (tick s2)) in Hpause by lia.
    unfold await at 1. answered H0. simpl.
    unfold draw, await. simpl. answered Hpause. simpl.
    eexists. split; [reflexivity |]. split; [| reflexivity].
    apply since_app. simpl. rewrite <- app_assoc.
    now replace (tick s2 + 1) with (S (tick s2)) by lia.
  - specialize (Hhold eq_refl). unfold hold_seconds in Hhold.
    pose proof (Hcalls 0 _ eq_refl) as H0.
    rewrite Nat.add_0_r in H0.
    unfold await at 1. answered H0. simpl.
    destruct wait_for_click as [w|]; simpl.
    + unfold divide.
      destruct (true_divide env w 1000) as [seconds|e]; [| discriminate].
      injection Hhold as <-. simpl in *.
      pose proof (Hcalls 1 _ eq_refl) as H1.
      pose proof (Hcalls 2 _ eq_refl) as H2.
      replace (tick s2 + 1) with (S (tick s2)) in H1 by lia.
      replace (tick s2 + 2) with (S (S (tick s2))) in H2 by lia.
      replace (tick s2 + 3 + 1) with (S (S (S (S (tick s2))))) in Hpause by lia.
      replace (tick s2 + 3) with (S (S (S (tick s2)))) in Hpause by lia.
      unfold await at 1. simpl. answered H1. simpl.
      unfold await at 1. simpl. answered H2. simpl.
      unfold draw, await. simpl. answered Hpause. simpl.
      eexists. split; [reflexivity |]. split; [| reflexivity].
      apply since_app. simpl. rewrite <- !app_assoc.
      now replace (tick s2 + 3) with (S (S (S (tick s2)))) by lia.
    + injection Hhold as <-. simpl in *.
      pose proof (Hcalls 1 _ eq_refl) as H1.
      replace (tick s2 + 1) with (S (tick s2)) in H1 by lia.
      replace (tick s2 + 2 + 1) with (S (S (S (tick s2)))) in Hpause by lia.
      replace (tick s2 + 2) with (S (S (tick s2))) in Hpause by lia.
      unfold await at 1. simpl. answered H1. simpl.
      unfold draw, await. simpl. answered Hpause. simpl.
      eexists. split; [reflexivity |]. split; [| reflexivity].
      apply since_app. simpl. rewrite <- !app_assoc.
      now replace (tick s2 + 2) with (S (S (tick s2))) by lia.
Qed.

Lemma click_dispatches_witness :
  ((click_move_phase phone (Some (SelStr "#a")) None None fresh
    = Val (Vector.mk 100 100) phone_at_target
    /\ detect_mobile phone phone_at_target = Val true phone_detected
    /\ made_calls_succeed phone phone_detected true (Vector.mk 100 100) None)
   /\ exists s',
        click phone (Some (SelStr "#a")) None None None fresh = Val tt s'
        /\ since phone_detected s'
           = [Called (page_touchscreen_tap (Vector.mk 100 100)) true;
              Called (asyncio_sleep ((1 # 2) * 2)%Q) true]
        /\ moving (self s') = false)
  /\ ((click_move_phase desktop None None None fresh = Val origin fresh_busy
       /\ detect_mobile desktop fresh_busy = Val false desktop_detected
       /\ hold_seconds desktop (Some 50%Q) = Ok (Some (50 / 1000)%Q)
       /\ made_calls_succeed desktop desktop_detected false origin
            (Some (50 / 1000)%Q))
      /\ exists s',
           click desktop None None None (Some 50%Q) fresh = Val tt s'
           /\ since desktop_detected s'
              = [Called page_mouse_down true;
                 Called (asyncio_sleep (50 / 1000)%Q) true;
                 Called page_mouse_up true;
                 Called (asyncio_sleep ((1 # 2) * 2)%Q) true]
           /\ moving (self s') = false).
Proof.
  assert (Hphone : made_calls_succeed phone phone_detected true
                     (Vector.mk 100 100) None)
    by (split; [intros i c _; destruct c; reflexivity | reflexivity]).
  assert (Hdesk : made_calls_succeed desktop desktop_detected false origin
                    (Some (50 / 1000)%Q))
    by (split; [intros i c _; destruct c; reflexivity | reflexivity]).
  split.
  - split; [split; [reflexivity | split; [reflexivity | exact Hphone]] |].
    exact (proj2 (click_dispatches phone (Some (SelStr "#a")) None None None
                    fresh phone_at_target phone_detected (Vector.mk 100 100)
                    true None eq_refl eq_refl
                    (fun H => False_ind _ (Bool.diff_true_false H)) Hphone)).
  - split; [repeat split; try reflexivity; apply Hdesk |].
    exact (proj2 (click_dispatches desktop None None None (Some 50%Q)
                    fresh fresh_busy desktop_detected origin
                    false (Some (50 / 1000)%Q) eq_refl eq_refl
                    (fun _ => eq_refl) Hdesk)).
Defined.

(** ** C9: [create_cursor] *)

Lemma Vector_of_kwargs_xy (a b : Q) :
  Vector_of_kwargs (<["x" := a]> (<["y" := b]> ∅)) = Ok (Vector.mk a b).
Proof.
  unfold Vector_of_kwargs.
  rewrite lookup_insert_eq, lookup_insert_ne, lookup_insert_eq by discriminate.
  rewrite decide_True; [reflexivity |].
  rewrite map_size_insert_None, map_size_insert_None, map_size_empty;
    [reflexivity | apply lookup_empty |].
  rewrite lookup_insert_ne by discriminate. apply lookup_empty.
Qed.

(** C9.  [create_cursor] returns a controller that is idle, has
    detected nothing yet and carries the default overshoot settings, and
    whose recorded position is the given start: the [Vector] passed, the
    point of the [x] and [y] entries of the dict passed, or the origin
    (0,0) when the argument is omitted. *)
Theorem create_cursor_start (page : Page) :
  origin = Vector.mk 0 0
  /\ (exists c,
        create_cursor page None = Ok c /\ previous c = origin /\ ready c)
  /\ (forall v, exists c,
        create_cursor page (Some (StartVector v)) = Ok c
        /\ previous c = v /\ ready c)
  /\ (forall a b, exists c,
        create_cursor page (Some (StartDict (<["x" := a]> (<["y" := b]> ∅))))
        = Ok c
        /\ previous c = Vector.mk a b /\ ready c).
Proof.
  split; [reflexivity |]. split; [| split].
  - eexists. split; [reflexivity |]. now repeat split.
  - intros v. eexists. split; [reflexivity |]. now repeat split.
  - intros a b. exists (GhostCursor_init page (Vector.mk a b)).
    unfold create_cursor. rewrite Vector_of_kwargs_xy. now repeat split.
Qed.

(** ** C10: the cached touch capability *)

Section MobileCache.

Variable env : Env.

Lemma detect_mobile_cached (s : State) (b : bool) :
  is_mobile (self s) = Some b -> detect_mobile env s = Val b s.
Proof.
  intros H. unfold detect_mobile, bind, get_self. now rewrite H.
Qed.

Lemma detect_mobile_stores (s s1 : State) (b : bool) :
  detect_mobile env s = Val b s1 -> is_mobile (self s1) = Some b.
Proof.
  unfold detect_mobile, bind, get_self, await.
  destruct (is_mobile (self s)) as [b0|] eqn:Hcache; simpl.
  - now intros [= <- <-].
  - destruct (respond env (tick s) page_evaluate) as [b0|e]; simpl;
      [now intros [= <- <-] | discriminate].
Qed.

Lemma detect_mobile_failed (s s1 : State) (e : PyExn) :
  detect_mobile env s = Err e s1 ->
  is_mobile (self s) = None /\ is_mobile (self s1) = None.
Proof.
  unfold detect_mobile, bind, get_self, await.
  destruct (is_mobile (self s)) as [b0|] eqn:Hcache; simpl; [discriminate |].
  destruct (respond env (tick s) page_evaluate) as [b0|e0]; simpl;
    [discriminate |].
  intros [= _ <-]. simpl. auto.
Qed.

Lemma detect_repeatedly_cached (n : nat) (s : State) (b : bool) :
  is_mobile (self s) = Some b -> detect_repeatedly env n s = s.
Proof.
  intros H. induction n as [|n IH]; simpl; [reflexivity |].
  now rewrite (detect_mobile_cached s b H).
Qed.

Lemma detect_repeatedly_answered (n : nat) (s : State) :
  exists new,
    events (detect_repeatedly env n s) = events s ++ new
    /\ answered_queries new <= 1.
Proof.
  revert s. induction n as [|n IH]; intros s; simpl.
  - exists []. rewrite app_nil_r. simpl. split; [reflexivity | lia].
  - destruct (is_mobile (self s)) as [b|] eqn:Hcache.
    + rewrite (detect_mobile_cached s b Hcache). simpl. apply IH.
    + unfold detect_mobile, bind, get_self, await. rewrite Hcache. simpl.
      destruct (respond env (tick s) page_evaluate) as [b|e]; simpl.
      * rewrite (detect_repeatedly_cached n _ b) by reflexivity. simpl.
        exists [Called page_evaluate true]. simpl. split; [reflexivity | lia].
      * destruct (IH (mkState (interfere (other_tasks env (tick s)) (self s))
                        (S (tick s))
                        (events s ++ [Called page_evaluate false])))
          as (new & E & Hle).
        exists (Called page_evaluate false :: new). simpl in *.
        rewrite E, <- app_assoc. split; [reflexivity | exact Hle].
Qed.

(** Once stored, the answer survives every operation of the class. *)
Lemma is_mobile_stable (b : bool) :
  (forall op, preserves (fun c => is_mobile c = Some b) (run_operation env op))
  /\ preserves (fun c => is_mobile c = Some b) (random_move env).
Proof.
  split; [intros [sel pad wfs|sel pad wfs wfc|d]; simpl |].
  - apply preserves_move; auto; intros ? c H E; simpl in *; congruence.
  - apply preserves_click; auto; intros ? c H E; simpl in *; congruence.
  - apply preserves_move_to; auto; intros ? c H E; simpl in *; congruence.
  - apply preserves_random_move; auto; intros ? c H E; simpl in *; congruence.
Qed.

End MobileCache.

(** C10, as worded, fails: when the first query raises (the page is
    navigating), nothing is stored and the second call of
    [detect_mobile] queries the page again -- two queries on one
    controller. *)
Lemma detect_mobile_queries_again :
  respond navigating 0 page_evaluate
  = Raises (Exception "Execution context was destroyed")
  /\ queries (since fresh (detect_repeatedly navigating 2 fresh)) = 2
  /\ ~ queries_at_most_once navigating 2 fresh.
Proof.
  split; [reflexivity |]. split; [reflexivity |].
  unfold queries_at_most_once.
  change (queries (since fresh (detect_repeatedly navigating 2 fresh))) with 2.
  lia.
Qed.

(** C10, amended.  At most one query of the page is ever answered on a
    controller.  A call of [detect_mobile] that returns has stored its
    value in [is_mobile]; from then on every call returns that value
    without querying (the state, log included, is unchanged), and no
    operation of the class changes the stored value.  A call whose query
    raises stores nothing, so the next call queries again. *)
Theorem detect_mobile_caches (env : Env) (s : State) :
  (forall b s1,
     detect_mobile env s = Val b s1 ->
     is_mobile (self s1) = Some b
     /\ (forall s2, is_mobile (self s2) = Some b ->
                    detect_mobile env s2 = Val b s2)
     /\ (forall op s2, is_mobile (self s2) = Some b ->
                       is_mobile (self (final (run_operation env op s2)))
                       = Some b)
     /\ (forall s2, is_mobile (self s2) = Some b ->
                    is_mobile (self (final (random_move env s2))) = Some b))
  /\ (forall e s1,
        detect_mobile env s = Err e s1 -> is_mobile (self s1) = None)
  /\ (forall n,
        answered_queries (since s (detect_repeatedly env n s)) <= 1).
Proof.
  split; [| split].
  - intros b s1 H. split; [exact (detect_mobile_stores env s s1 b H) |].
    split; [intros s2; apply detect_mobile_cached |].
    destruct (is_mobile_stable env b) as [Hop Hidle].
    split; [intros op s2 | intros s2];
      apply (preserves_final (fun c => is_mobile c = Some b)); auto.
  - intros e s1 H. exact (proj2 (detect_mobile_failed env s s1 e H)).
  - intros n. destruct (detect_repeatedly_answered env n s) as (new & E & Hle).
    now rewrite (since_app _ _ _ E).
Qed.

Lemma detect_mobile_caches_witness :
  exists s1,
    detect_mobile phone fresh = Val true s1
    /\ is_mobile (self s1) = Some true
    /\ detect_mobile phone s1 = Val true s1
    /\ is_mobile (self (final (run_operation phone
                                 (OpClick None None None None) s1)))
       = Some true.
Proof.
  eexists. split; [vm_compute; reflexivity |].
  destruct (proj1 (detect_mobile_caches phone fresh) true _ eq_refl)
    as (Hstored & Hagain & Hop & _).
  split; [exact Hstored |].
  split; [exact (Hagain _ Hstored) | exact (Hop _ _ Hstored)].
Defined.

(** * Further properties of the controller *)

(** ** [move_to] *)

(** X1.  [move_to] on a dict that lacks the key [x] or the key [y]
    raises before it does anything else: no call is made, nothing is
    logged, and the controller -- the suppression flag included -- is
    left exactly as it was. *)
Theorem move_to_missing_key (env : Env) (destination : gmap string Q)
  (s : State) :
  destination !! "x" = None \/ destination !! "y" = None ->
  exists msg, move_to env destination s = Err (Exception msg) s.
Proof.
  intros H. unfold move_to, bind, subscript.
  destruct (destination !! "x") as [a|]; simpl.
  - destruct H as [H | H]; [discriminate |]. rewrite H. simpl. eauto.
  - eauto.
Qed.

Lemma move_to_missing_key_witness :
  (only_y !! "x" = None \/ only_y !! "y" = None)
  /\ exists msg, move_to desktop only_y fresh = Err (Exception msg) fresh.
Proof.
  assert (H : only_y !! "x" = None \/ only_y !! "y" = None)
    by (left; reflexivity).
  split; [exact H |].
  exact (move_to_missing_key desktop only_y fresh H).
Defined.

(** X2.  [move_to] on a dict with entries [x] and [y] (other entries are
    ignored) traces [path(previous, Vector(x, y))]: when
    [page.mouse.move] does not fail it returns, the calls it made are
    exactly the dispatches of that path's points in order, and the flag
    is cleared. *)
Theorem move_to_dispatches_path (env : Env) (destination : gmap string Q)
  (a b : Q) (s : State) :
  destination !! "x" = Some a ->
  destination !! "y" = Some b ->
  moves_succeed env ->
  exists s',
    move_to env destination s = Val tt s'
    /\ since s s'
       = moves (path env (tick s) (previous (self s))
                  (ToPoint (Vector.mk a b)) None)
    /\ moving (self s') = false.
Proof.
  intros Hx Hy Hok. unfold move_to, bind, subscript. rewrite Hx, Hy. simpl.
  rewrite (trace_path_succeeds env Hok). simpl.
  eexists. split; [reflexivity |]. split; [| reflexivity].
  apply since_app. simpl. now rewrite traced_events.
Qed.

Lemma move_to_dispatches_path_witness :
  (xyz !! "x" = Some 3%Q /\ xyz !! "y" = Some 4%Q /\ moves_succeed desktop)
  /\ exists s',
       move_to desktop xyz fresh = Val tt s'
       /\ since fresh s' = moves [origin; Vector.mk 3 4]
       /\ moving (self s') = false.
Proof.
  assert (Hok : moves_succeed desktop) by (intros t v; reflexivity).
  split; [split; [reflexivity | split; [reflexivity | exact Hok]] |].
  exact (move_to_dispatches_path desktop xyz 3%Q 4%Q fresh
           eq_refl eq_refl Hok).
Defined.

(** X3.  Unlike [move], [move_to] never records its destination by
    itself: with no other task writing the controller, when [move_to]
    returns, [previous] is the last point its trace delivered, or what it
    was before if no dispatch returned. *)
Theorem move_to_previous (env : Env) (destination : gmap string Q)
  (s s' : State) :
  quiet env ->
  move_to env destination s = Val tt s' ->
  previous (self s')
  = default (previous (self s)) (last (delivered (since s s'))).
Proof.
  intros Hq. unfold move_to, bind, subscript.
  destruct (destination !! "x") as [a|]; simpl; [| discriminate].
  destruct (destination !! "y") as [b|]; simpl; [| discriminate].
  destruct (trace_path env _ false _) as [[] s2|] eqn:Htrace; [| discriminate].
  intros [= <-]. simpl.
  pose proof (trace_path_previous env Hq _ _ _ _ Htrace) as Hp.
  simpl in Hp. rewrite Hp. reflexivity.
Qed.

Lemma move_to_previous_witness :
  quiet flaky
  /\ exists s',
       move_to flaky xyz fresh = Val tt s'
       /\ previous (self s') = origin.
Proof.
  assert (Hq : quiet flaky) by (intros t; reflexivity).
  split; [exact Hq |].
  exists (final (move_to flaky xyz fresh)).
  assert (Hrun : move_to flaky xyz fresh = Val tt (final (move_to flaky xyz fresh)))
    by (vm_compute; reflexivity).
  split; [exact Hrun |].
  rewrite (move_to_previous flaky xyz fresh _ Hq Hrun).
  vm_compute. reflexivity.
Defined.

(** ** [get_cdp_session] and [get_random_page_point] *)

Lemma logs_sampling_cached (env : Env) (d : CDPSession) (s : State) :
  cdp_session (self s) = Some d ->
  exists new,
    events (final (get_random_page_point env s)) = events s ++ new
    /\ Forall no_new_session new.
Proof.
  intros Hd. unfold get_random_page_point, get_cdp_session, bind, call, get_self.
  destruct (respond env (tick s) page_target_targetId) as [target_id|e]; simpl.
  - rewrite Hd. simpl.
    destruct (respond env (S (tick s)) (cdp_send_getWindowForTarget target_id))
      as [window|e]; simpl;
      eexists [_; _]; rewrite <- app_assoc; (split; [reflexivity |]);
      repeat constructor.
  - eexists [_]. split; [reflexivity |]. repeat constructor.
Qed.

(** X4.  The CDP session is opened once and kept.  A call of
    [get_cdp_session] that returns has stored the session it returns;
    wherever that session is stored, [get_cdp_session] returns it
    without any call and without changing the state, and
    [get_random_page_point] -- whether it returns or raises -- opens no
    new session. *)
Theorem get_cdp_session_caches (env : Env) (s s1 : State) (d : CDPSession) :
  get_cdp_session env s = Val d s1 ->
  cdp_session (self s1) = Some d
  /\ (forall s2, cdp_session (self s2) = Some d ->
        get_cdp_session env s2 = Val d s2
        /\ exists new,
             events (final (get_random_page_point env s2)) = events s2 ++ new
             /\ Forall no_new_session new
             /\ cdp_session (self (final (get_random_page_point env s2)))
                = Some d).
Proof.
  intros H. split.
  - revert H. unfold get_cdp_session, bind, get_self, await.
    destruct (cdp_session (self s)) as [d0|] eqn:Hd; simpl.
    + now intros [= <- <-].
    + destruct (respond env (tick s) page_context_new_cdp_session) as [d0|e];
        simpl; [now intros [= <- <-] | discriminate].
  - intros s2 Hd. split.
    + unfold get_cdp_session, bind, get_self. now rewrite Hd.
    + destruct (logs_sampling_cached env d s2 Hd) as (new & E & Hnew).
      exists new. split; [exact E | split; [exact Hnew |]].
      unfold get_random_page_point, get_cdp_session, bind, call, get_self.
      destruct (respond env (tick s2) page_target_targetId) as [target_id|e];
        simpl; [| exact Hd].
      rewrite Hd. simpl.
      destruct (respond env (S (tick s2))
                  (cdp_send_getWindowForTarget target_id)) as [window|e];
        simpl; exact Hd.
Qed.

Lemma get_cdp_session_caches_witness :
  exists s1,
    get_cdp_session desktop fresh = Val (Session 0) s1
    /\ cdp_session (self s1) = Some (Session 0)
    /\ get_cdp_session desktop s1 = Val (Session 0) s1.
Proof.
  exists (final (get_cdp_session desktop fresh)).
  assert (Hrun : get_cdp_session desktop fresh
                 = Val (Session 0) (final (get_cdp_session desktop fresh)))
    by reflexivity.
  destruct (get_cdp_session_caches desktop fresh _ (Session 0) Hrun)
    as [Hstored Hlater].
  split; [exact Hrun | split; [exact Hstored |]].
  exact (proj1 (Hlater _ Hstored)).
Defined.

(** ** [trace_path]: what it lets through *)

(** X5.  When the connectivity check always answers and
    [page.mouse.move] raises nothing but [Exception]s, [trace_path]
    never raises: for every path, flag setting and state it returns. *)
Theorem trace_path_returns (env : Env) (vectors : list Vector.t)
  (abort_on_move : bool) (s : State) :
  check_answers env ->
  moves_raise_only_Exception env ->
  exists s', trace_path env vectors abort_on_move s = Val tt s'.
Proof.
  intros Hcheck Hmove. unfold trace_path, bind.
  assert (Hloop : exists f s', trace_loop env vectors abort_on_move s = Val f s').
  { revert s. induction vectors as [|v rest IH]; intros s; simpl; [eauto |].
    unfold bind. pose proof (trace_step_cases env v abort_on_move s) as Hc.
    destruct (abort_on_move && moving (self s)).
    { rewrite Hc. eauto. }
    destruct (respond env (tick s) (page_mouse_move v)) as [[]|[msg|msg]] eqn:Hv.
    - rewrite Hc. apply IH.
    - destruct (Hcheck (S (tick s))) as [b Hb]. rewrite Hb in Hc.
      destruct b; rewrite Hc; [apply IH | eauto].
    - destruct (Hmove _ _ _ Hv). }
  destruct Hloop as (f & s' & ->). eauto.
Qed.

Lemma trace_path_returns_witness :
  (check_answers flaky /\ moves_raise_only_Exception flaky)
  /\ exists s', trace_path flaky [pt 1; pt 2] true fresh = Val tt s'.
Proof.
  assert (Hcheck : check_answers flaky) by (intros t; exists true; reflexivity).
  assert (Hmove : moves_raise_only_Exception flaky)
    by (intros t v msg H; discriminate H).
  split; [split; [exact Hcheck | exact Hmove] |].
  exact (trace_path_returns flaky [pt 1; pt 2] true fresh Hcheck Hmove).
Defined.

(** X6.  An exception of [page.mouse.move] that is not an [Exception]
    (a cancellation) is not absorbed: when the loop arrives at [v] and
    the dispatch of [v] raises it, [trace_path] raises it at once --
    without asking whether the browser is connected, without logging,
    without setting [previous] to [v] and without dispatching the points
    after [v]. *)
Theorem trace_path_lets_cancellation_through (env : Env)
  (pre : list Vector.t) (v : Vector.t) (post : list Vector.t)
  (abort_on_move : bool) (s s1 : State) (msg : string) :
  trace_loop env pre abort_on_move s = Val Next s1 ->
  abort_on_move && moving (self s1) = false ->
  respond env (tick s1) (page_mouse_move v) = Raises (BaseException msg) ->
  trace_path env (pre ++ v :: post) abort_on_move s
  = Err (BaseException msg) (awaited env (page_mouse_move v) false s1).
Proof.
  intros Hpre Hflag Hmove.
  pose proof (trace_step_cases env v abort_on_move s1) as Hc.
  rewrite Hflag, Hmove in Hc.
  unfold trace_path, bind. rewrite trace_loop_app, Hpre. simpl. unfold bind.
  now rewrite Hc.
Qed.

Lemma trace_path_lets_cancellation_through_witness :
  (trace_loop cancelled [pt 1] false fresh
   = Val Next (after_dispatch cancelled (pt 1) fresh)
   /\ false && moving (self (after_dispatch cancelled (pt 1) fresh)) = false
   /\ respond cancelled (tick (after_dispatch cancelled (pt 1) fresh))
        (page_mouse_move (pt 2))
      = Raises (BaseException "CancelledError"))
  /\ trace_path cancelled ([pt 1] ++ pt 2 :: [pt 3]) false fresh
     = Err (BaseException "CancelledError")
         (awaited cancelled (page_mouse_move (pt 2)) false
            (after_dispatch cancelled (pt 1) fresh)).
Proof.
  split; [repeat split |].
  exact (trace_path_lets_cancellation_through cancelled [pt 1] (pt 2) [pt 3]
           false fresh (after_dispatch cancelled (pt 1) fresh)
           "CancelledError" eq_refl eq_refl eq_refl).
Defined.

(** X7.  Without [abort_on_move] the flag is not looked at: when
    [page.mouse.move] does not fail, [trace_path] dispatches every point
    of the path, in order and nothing else, whatever the value of
    [moving]; and with no other task writing the controller, [previous]
    ends on the last point of the path (unchanged for the empty path). *)
Theorem trace_path_dispatches_all (env : Env) (p : list Vector.t) (s : State) :
  moves_succeed env ->
  exists s',
    trace_path env p false s = Val tt s'
    /\ since s s' = moves p
    /\ (quiet env -> previous (self s') = default (previous (self s)) (last p)).
Proof.
  intros Hok. exists (traced env p s).
  pose proof (trace_path_succeeds env Hok p s) as Hrun.
  pose proof (since_app _ _ _ (traced_events env p s)) as Hev.
  split; [exact Hrun | split; [exact Hev |]].
  intros Hq. rewrite (trace_path_previous env Hq _ _ _ _ Hrun), Hev.
  now rewrite delivered_moves.
Qed.

Lemma trace_path_dispatches_all_witness :
  moves_succeed desktop
  /\ exists s',
       trace_path desktop [pt 1; pt 2] false fresh_busy = Val tt s'
       /\ since fresh_busy s' = moves [pt 1; pt 2]
       /\ (quiet desktop ->
           previous (self s')
           = default (previous (self fresh_busy)) (last [pt 1; pt 2])).
Proof.
  assert (Hok : moves_succeed desktop) by (intros t v; reflexivity).
  split; [exact Hok |].
  exact (trace_path_dispatches_all desktop [pt 1; pt 2] fresh_busy Hok).
Defined.

(** ** [random_move]: the idle loop and the flag *)

(** X8.  While an explicit operation is in flight ([moving] is set), an
    iteration of [random_move] samples nothing and dispatches nothing:
    all it logs is its sleep, its rescheduling and possibly the stop
    warning; and with no other task writing the controller it leaves the
    controller object untouched. *)
Theorem random_move_busy (env : Env) (s : State) :
  moving (self s) = true ->
  exists new,
    events (final (random_move env s)) = events s ++ new
    /\ Forall loop_event new
    /\ (quiet env -> self (final (random_move env s)) = self s).
Proof.
  intros Hbusy.
  unfold random_move, try_except, random_move_body, bind, get_self.
  rewrite Hbusy. simpl. unfold await, call. simpl.
  destruct (respond env (S (tick s)) (asyncio_sleep _)) as [[]|e]; simpl.
  - destruct (respond env (S (S (tick s))) asyncio_ensure_future_random_move)
      as [[]|e]; simpl.
    + eexists [_; _]. rewrite <- app_assoc.
      split; [reflexivity |]. split; [repeat constructor |].
      intros Hq. rewrite Hq. now destruct (self s).
    + eexists [_; _; _]. rewrite <- !app_assoc.
      split; [reflexivity |]. split; [repeat constructor |].
      intros Hq. rewrite Hq. now destruct (self s).
  - eexists [_; _]. rewrite <- app_assoc.
    split; [reflexivity |]. split; [repeat constructor |].
    intros Hq. rewrite Hq. now destruct (self s).
Qed.

Lemma random_move_busy_witness :
  moving (self fresh_busy) = true
  /\ exists new,
       events (final (random_move desktop fresh_busy))
       = events fresh_busy ++ new
       /\ Forall loop_event new
       /\ (quiet desktop ->
           self (final (random_move desktop fresh_busy)) = self fresh_busy).
Proof.
  split; [reflexivity |].
  exact (random_move_busy desktop fresh_busy eq_refl).
Defined.

Section FlagUntouched.

Variable env : Env.
Hypothesis env_quiet : quiet env.
Variable b : bool.

Let flag_is (c : GhostCursor) : Prop := moving c = b.

Lemma flag_is_interfere (t : nat) (c : GhostCursor) :
  flag_is c -> flag_is (interfere (other_tasks env t) c).
Proof. rewrite env_quiet. auto. Qed.

Ltac flag_side :=
  intros; first [apply flag_is_interfere; assumption | assumption].

Lemma trace_path_keeps_flag (vectors : list Vector.t) (abort_on_move : bool) :
  preserves flag_is (trace_path env vectors abort_on_move).
Proof. apply preserves_trace_path; flag_side. Qed.

Lemma random_move_keeps_flag : preserves flag_is (random_move env).
Proof.
  unfold random_move, random_move_body.
  repeat first
    [ apply trace_path_keeps_flag
    | apply (preserves_get_random_page_point env flag_is); flag_side
    | preserves_step flag_side ].
Qed.

End FlagUntouched.

(** X9.  The idle loop never claims or releases the controller: with no
    other task writing it, the suppression flag has the same value after
    [random_move] -- and after [trace_path] -- as before, whether they
    return or raise. *)
Theorem idle_loop_keeps_flag (env : Env) :
  quiet env ->
  (forall s, moving (self (final (random_move env s))) = moving (self s))
  /\ (forall vectors abort_on_move s,
        moving (self (final (trace_path env vectors abort_on_move s)))
        = moving (self s)).
Proof.
  intros Hq. split.
  - intros s.
    apply (preserves_final (fun c => moving c = moving (self s)));
      [apply (random_move_keeps_flag env Hq) | reflexivity].
  - intros vectors abort_on_move s.
    apply (preserves_final (fun c => moving c = moving (self s)));
      [apply (trace_path_keeps_flag env Hq) | reflexivity].
Qed.

Lemma idle_loop_keeps_flag_witness :
  quiet flaky
  /\ moving (self (final (random_move flaky fresh))) = moving (self fresh).
Proof.
  assert (Hq : quiet flaky) by (intros t; reflexivity).
  split; [exact Hq |].
  exact (proj1 (idle_loop_keeps_flag flaky Hq) fresh).
Defined.

Lemma logs_sampling_no_motion (env : Env) :
  logs no_motion (get_random_page_point env).
Proof.
  unfold get_random_page_point, get_cdp_session.
  repeat logs_step; reflexivity.
Qed.

(** X10.  If the sampling of the random page point raises in an idle
    iteration, [random_move] stops there: it returns, having logged the
    stop warning, without having dispatched any pointer event, and
    without sleeping or scheduling a next run. *)
Theorem random_move_sampling_fails (env : Env) (s s1 : State) (e : PyExn) :
  moving (self s) = false ->
  get_random_page_point env s = Err e s1 ->
  random_move env s
  = Val tt (mkState (self s1) (tick s1) (events s1 ++ [Logged stop_warning]))
  /\ exists new,
       events s1 = events s ++ new
       /\ Forall no_motion new /\ Forall not_rescheduled new.
Proof.
  intros Hidle Hsample. split.
  - unfold random_move, try_except, random_move_body, bind, get_self.
    rewrite Hidle. simpl. now rewrite Hsample.
  - destruct (logs_sampling_no_motion env s) as (new & E & Hnew).
    destruct (logs_get_random_page_point env s) as (new' & E' & Hnew').
    rewrite Hsample in E, E'. simpl in E, E'.
    exists new. split; [exact E | split; [exact Hnew |]].
    rewrite E in E'. apply app_inv_head in E'. now subst new'.
Qed.

Lemma random_move_sampling_fails_witness :
  exists e s1,
    (moving (self fresh) = false
     /\ get_random_page_point no_target fresh = Err e s1)
    /\ random_move no_target fresh
       = Val tt (mkState (self s1) (tick s1)
                   (events s1 ++ [Logged stop_warning])).
Proof.
  eexists. exists (final (get_random_page_point no_target fresh)).
  assert (Hsample : get_random_page_point no_target fresh
                    = Err (Exception
                             "AttributeError: 'Page' object has no attribute 'target'")
                          (final (get_random_page_point no_target fresh)))
    by reflexivity.
  split; [split; [reflexivity | exact Hsample] |].
  exact (proj1 (random_move_sampling_fails no_target fresh _ _ eq_refl Hsample)).
Defined.

(** ** [click] and [move] together *)

(** X11.  [click] on a selector whose target cannot be resolved to a box
    raises to its caller without having pressed, released, tapped or
    moved the pointer: no pointer event at all is dispatched, and
    neither the pause nor the clearing of the flag takes place. *)
Theorem click_unresolved_raises (env : Env) (selector : Selector)
  (padding_percentage wait_for_selector wait_for_click : option Q)
  (s : State) :
  (forall box s1,
     resolve_box env selector wait_for_selector
       (with_self (with_moving true) s) <> Val (Some box) s1) ->
  exists e s',
    click env (Some selector) padding_percentage wait_for_selector
      wait_for_click s = Err e s'
    /\ Forall no_motion (since s s').
Proof.
  intros Hun.
  unfold click, click_move_phase, bind, get_self. simpl.
  change (with_self (with_moving (negb false)) s)
    with (with_self (with_moving true) s).
  unfold move, bind.
  destruct (logs_resolve_box env selector wait_for_selector
              (with_self (with_moving true) s)) as (new & E & Hnew).
  destruct (resolve_box env selector wait_for_selector
              (with_self (with_moving true) s)) as [[box|] s1|e s1] eqn:Hres;
    simpl in E.
  - now destruct (Hun box s1).
  - exists (Exception no_dimensions_message), s1.
    split; [reflexivity |]. now rewrite (since_app s s1 new E).
  - exists e, s1.
    split; [reflexivity |]. now rewrite (since_app s s1 new E).
Qed.

Lemma click_unresolved_raises_witness :
  (forall box s1,
     resolve_box no_such_element (SelStr "#gone") None
       (with_self (with_moving true) fresh) <> Val (Some box) s1)
  /\ exists e s',
       click no_such_element (Some (SelStr "#gone")) None None None fresh
       = Err e s'
       /\ Forall no_motion (since fresh s').
Proof.
  assert (Hun : forall box s1,
             resolve_box no_such_element (SelStr "#gone") None
               (with_self (with_moving true) fresh) <> Val (Some box) s1)
    by (intros box s1 H; vm_compute in H; discriminate H).
  split; [exact Hun |].
  exact (click_unresolved_raises no_such_element (SelStr "#gone")
           None None None fresh Hun).
Defined.

(** X12.  A press that fails is not followed by a release.  When the
    move phase of [click] is completed, the surface is not touch-capable
    and [page.mouse.down] raises an [Exception], [click] logs the
    warning, dispatches no [page.mouse.up] and makes no hold; if the
    final sleep then succeeds it returns normally with the flag
    cleared. *)
Theorem click_press_fails (env : Env) (selector : option Selector)
  (padding_percentage wait_for_selector wait_for_click : option Q)
  (s s1 s2 : State) (target_coords : Vector.t) (msg : string) :
  click_move_phase env selector padding_percentage wait_for_selector s
  = Val target_coords s1 ->
  detect_mobile env s1 = Val false s2 ->
  respond env (tick s2) page_mouse_down = Raises (Exception msg) ->
  respond env (S (S (tick s2)))
    (asyncio_sleep (random_random env (S (tick s2)) * 2)%Q) = Ok tt ->
  exists s',
    click env selector padding_percentage wait_for_selector wait_for_click s
    = Val tt s'
    /\ since s2 s'
       = [Called page_mouse_down false;
          Logged ("Warning: could not click mouse/touch, error message: "
                  +:+ msg);
          Called (asyncio_sleep (random_random env (S (tick s2)) * 2)%Q) true]
    /\ moving (self s') = false.
Proof.
  intros Hphase Hdetect Hdown Hsleep.
  unfold click, bind. rewrite Hphase.
  unfold click_dispatch, try_except_Exception, bind. rewrite Hdetect. simpl.
  unfold await at 1. rewrite Hdown. simpl.
  unfold draw, await. simpl. rewrite Hsleep. simpl.
  eexists. split; [reflexivity |]. split; [| reflexivity].
  apply since_app. simpl. now rewrite <- !app_assoc.
Qed.

Lemma click_press_fails_witness :
  exists s1 s2,
    (click_move_phase press_fails None None None fresh
     = Val origin s1
     /\ detect_mobile press_fails s1 = Val false s2
     /\ respond press_fails (tick s2) page_mouse_down
        = Raises (Exception "Target closed")
     /\ respond press_fails (S (S (tick s2)))
          (asyncio_sleep (random_random press_fails (S (tick s2)) * 2)%Q)
        = Ok tt)
    /\ exists s',
         click press_fails None None None (Some 50%Q) fresh = Val tt s'
         /\ since s2 s'
            = [Called page_mouse_down false;
               Logged ("Warning: could not click mouse/touch, error message: "
                       +:+ "Target closed");
               Called (asyncio_sleep
                         (random_random press_fails (S (tick s2)) * 2)%Q) true]
         /\ moving (self s') = false.
Proof.
  exists (final (click_move_phase press_fails None None None fresh)).
  exists (final (detect_mobile press_fails
                   (final (click_move_phase press_fails None None None fresh)))).
  split; [repeat split |].
  exact (click_press_fails press_fails None None None (Some 50%Q)
           fresh _ _ origin "Target closed" eq_refl eq_refl eq_refl eq_refl).
Defined.

(** X15.  A hold that cannot be computed costs the release.  When the
    move phase of [click] is completed, the surface is not touch-capable,
    the press succeeds and [wait_for_click / 1000] raises an [Exception]
    (an [OverflowError]), [click] logs the warning, makes no hold and
    dispatches no [page.mouse.up]; if the final sleep then succeeds it
    returns normally with the flag cleared. *)
Theorem click_hold_overflows (env : Env) (selector : option Selector)
  (padding_percentage wait_for_selector : option Q) (w : Q)
  (s s1 s2 : State) (target_coords : Vector.t) (msg : string) :
  click_move_phase env selector padding_percentage wait_for_selector s
  = Val target_coords s1 ->
  detect_mobile env s1 = Val false s2 ->
  respond env (tick s2) page_mouse_down = Ok tt ->
  true_divide env w 1000 = Raises (Exception msg) ->
  respond env (S (S (tick s2)))
    (asyncio_sleep (random_random env (S (tick s2)) * 2)%Q) = Ok tt ->
  exists s',
    click env selector padding_percentage wait_for_selector (Some w) s
    = Val tt s'
    /\ since s2 s'
       = [Called page_mouse_down true;
          Logged ("Warning: could not click mouse/touch, error message: "
                  +:+ msg);
          Called (asyncio_sleep (random_random env (S (tick s2)) * 2)%Q) true]
    /\ moving (self s') = false.
Proof.
  intros Hphase Hdetect Hdown Hdiv Hsleep.
  unfold click, bind. rewrite Hphase.
  unfold click_dispatch, try_except_Exception, bind. rewrite Hdetect. simpl.
  unfold await at 1. rewrite Hdown. simpl.
  unfold divide. rewrite Hdiv. simpl.
  unfold draw, await. simpl. rewrite Hsleep. simpl.
  eexists. split; [reflexivity |]. split; [| reflexivity].
  apply since_app. simpl. now rewrite <- !app_assoc.
Qed.

Lemma click_hold_overflows_witness :
  (click_move_phase overflowing None None None fresh = Val origin fresh_busy
   /\ detect_mobile overflowing fresh_busy = Val false desktop_detected
   /\ respond overflowing (tick desktop_detected) page_mouse_down = Ok tt
   /\ true_divide overflowing (inject_Z (10 ^ 400)) 1000
      = Raises (Exception
                  "OverflowError: integer division result too large for a float")
   /\ respond overflowing (S (S (tick desktop_detected)))
        (asyncio_sleep
           (random_random overflowing (S (tick desktop_detected)) * 2)%Q)
      = Ok tt)
  /\ exists s',
       click overflowing None None None (Some (inject_Z (10 ^ 400))) fresh
       = Val tt s'
       /\ since desktop_detected s'
          = [Called page_mouse_down true;
             Logged ("Warning: could not click mouse/touch, error message: "
                     +:+ "OverflowError: integer division result too large for a float");
             Called (asyncio_sleep
                       (random_random overflowing
                          (S (tick desktop_detected)) * 2)%Q) true]
       /\ moving (self s') = false.
Proof.
  split; [repeat split |].
  exact (click_hold_overflows overflowing None None None
           (inject_Z (10 ^ 400)) fresh fresh_busy desktop_detected origin
           "OverflowError: integer division result too large for a float"
           eq_refl eq_refl eq_refl eq_refl eq_refl).
Defined.

(** X13.  [move] looks at [wait_for_selector] only for a selector string
    and only when it is not zero: with an [ElementHandle] the argument is
    ignored, and with a selector string a zero timeout behaves exactly
    as an omitted one (no [page.wait_for_selector] call is made). *)
Theorem move_wait_for_selector_falsy (env : Env)
  (padding_percentage : option Q) :
  (forall elem wait_for_selector s,
     move env (SelElem elem) padding_percentage wait_for_selector s
     = move env (SelElem elem) padding_percentage None s)
  /\ (forall sel timeout s,
        (timeout == 0)%Q ->
        move env (SelStr sel) padding_percentage (Some timeout) s
        = move env (SelStr sel) padding_percentage None s).
Proof.
  split.
  - reflexivity.
  - intros sel timeout s Hzero. unfold move, resolve_box. simpl.
    apply Qeq_bool_iff in Hzero. now rewrite Hzero.
Qed.

Lemma move_wait_for_selector_falsy_witness :
  (0 == 0)%Q
  /\ move desktop (SelStr "#a") None (Some 0%Q) fresh
     = move desktop (SelStr "#a") None None fresh.
Proof.
  assert (Hzero : (0 == 0)%Q) by reflexivity.
  split; [exact Hzero |].
  exact (proj2 (move_wait_for_selector_falsy desktop None)
           "#a" 0%Q fresh Hzero).
Defined.

(** X14.  The coordinates [click] uses for a selector are the
    destination that [move] sampled in the element's box, not the last
    point the pointer reached: whenever the move phase completes, the
    target was resolved to some [box] (state [s1]) and [target_coords]
    is [get_random_box_point(box, padding_percentage)] as drawn then. *)
Theorem click_coords_are_destination (env : Env) (selector : Selector)
  (padding_percentage wait_for_selector : option Q)
  (s s2 : State) (target_coords : Vector.t) :
  click_move_phase env (Some selector) padding_percentage wait_for_selector s
  = Val target_coords s2 ->
  exists box s1,
    resolve_box env selector wait_for_selector
      (with_self (with_moving true) s) = Val (Some box) s1
    /\ target_coords
       = get_random_box_point env (tick s1) box padding_percentage.
Proof.
  unfold click_move_phase, bind, get_self. simpl.
  change (with_self (with_moving (negb false)) s)
    with (with_self (with_moving true) s).
  unfold move, bind.
  destruct (resolve_box env selector wait_for_selector
              (with_self (with_moving true) s)) as [[box|] s1|e s1];
    try discriminate.
  destruct (move_to_box env box padding_percentage s1) as [[] s3|e s3] eqn:Hbox;
    [| discriminate].
  intros [= <- <-]. exists box, s1. split; [reflexivity |]. simpl.
  exact (move_to_box_previous env box padding_percentage s1 s3 Hbox).
Qed.

Lemma click_coords_are_destination_witness :
  exists s2,
    click_move_phase flaky (Some (SelStr "#a")) None None fresh
    = Val (Vector.mk 100 100) s2
    /\ exists box s1,
         resolve_box flaky (SelStr "#a") None
           (with_self (with_moving true) fresh) = Val (Some box) s1
         /\ Vector.mk 100 100 = get_random_box_point flaky (tick s1) box None.
Proof.
  exists (final (click_move_phase flaky (Some (SelStr "#a")) None None fresh)).
  assert (Hphase : click_move_phase flaky (Some (SelStr "#a")) None None fresh
                   = Val (Vector.mk 100 100)
                       (final (click_move_phase flaky (Some (SelStr "#a"))
                                 None None fresh)))
    by (vm_compute; reflexivity).
  split; [exact Hphase |].
  exact (click_coords_are_destination flaky (SelStr "#a") None None
           fresh _ (Vector.mk 100 100) Hphase).
Defined.
